(** * Foremast: assembling and publishing Spinnaker pipelines

    A shallow embedding of [src/foremast/pipeline/create_pipeline.py]
    (class [SpinnakerPipeline]: [post_pipeline], [render_wrapper] and
    [create_pipeline]) and the properties of the pipeline assembly that
    follow from it.

    Python dictionaries whose iteration order the code relies on
    ([regions_envs], [pipelines]) are insertion-ordered association lists;
    dictionaries that are only looked up ([settings], [subnets]) are finite
    maps.  Exceptions are an error result, and every call that leaves the
    process (the clean step, HTTP requests, look-ups, template rendering,
    [log.info]) leaves an event in the trace of the run; [log.debug]
    records are left out.

    The configuration is the well-formed one: the keys [create_pipeline.py]
    reads from [settings['pipeline']] are the fields of a record, and only
    the per-environment entries can be missing.  The functions the module
    imports ([clean_pipelines], [get_subnets], [ami_lookup], [get_template],
    [construct_pipeline_block], [renumerate_stages]) and the libraries it
    calls ([requests], [json]) are the operations of [Collaborators]. *)

From stdpp Require Import gmap strings list pretty.



(** ** Exceptions and results *)

Inductive exn :=
  | SpinnakerPipelineCreationFailed (msg : string)
  | KeyError (key : string)
  | ExternalError (what : string).

Inductive Result (A : Type) :=
  | Ok (a : A)
  | Raise (e : exn).
Arguments Ok {A} a.
Arguments Raise {A} e.

Definition is_Ok {A} (r : Result A) : Prop :=
  match r with Ok _ => True | Raise _ => False end.

(** Results compose like exceptions: the first [Raise] wins. *)
#[global] Instance Result_ret : MRet Result := λ A a, Ok a.
#[global] Instance Result_bind : MBind Result := λ A B k r,
  match r with
  | Ok a => k a
  | Raise e => Raise e
  end.

(** Calls into the libraries ([requests], [json]) return or raise an error
    of the library, never one of Foremast's. *)
Inductive LibResult (A : Type) :=
  | Returns (a : A)
  | Throws (what : string).
Arguments Returns {A} a.
Arguments Throws {A} what.

Definition lib {A} (r : LibResult A) : Result A :=
  match r with
  | Returns a => Ok a
  | Throws what => Raise (ExternalError what)
  end.

(** ** Insertion-ordered dictionaries *)

Module Dict.

Definition t (V : Type) : Type := list (string * V).

Fixpoint get {V} (k : string) (d : t V) : option V :=
  match d with
  | [] => None
  | (k', v) :: d' => if String.eqb k' k then Some v else get k d'
  end.

(** [d[k] = v]: an existing key keeps its position, a new key goes last. *)
Fixpoint set {V} (k : string) (v : V) (d : t V) : t V :=
  match d with
  | [] => [(k, v)]
  | (k', v') :: d' =>
      if String.eqb k' k then (k', v) :: d' else (k', v') :: set k v d'
  end.

(** [d[k].append(x)] on a [collections.defaultdict(list)]. *)
Fixpoint append {X} (k : string) (x : X) (d : t (list X)) : t (list X) :=
  match d with
  | [] => [(k, [x])]
  | (k', xs) :: d' =>
      if String.eqb k' k then (k', xs ++ [x]) :: d'
      else (k', xs) :: append k x d'
  end.

Definition keys {V} (d : t V) : list string := d.*1.

End Dict.

(** [d.get(k, default)] *)
Definition dict_get_default {V} (k : string) (default : V) (d : Dict.t V) : V :=
  match Dict.get k d with Some v => v | None => default end.

(** ** Configuration *)

Record Notifications := {
  email : string;
  slack : string;
}.

Record Image := {
  root_volume_size : Z;
}.

(** [settings['pipeline']] *)
Record PipelineSettings := {
  env : list string;
  base : string;
  notifications : Notifications;
  image : Image;
}.

(** The object given to the wrapper template, [data['app']]. *)
Record WrapperData := {
  wd_ami_id : string;
  wd_appname : string;
  wd_base : string;
  wd_environment : string;
  wd_region : string;
  wd_triggerjob : string;
  wd_email : string;
  wd_slack : string;
  wd_root_volume_size : Z;
  wd_ami_template_file : string;
}.

Definition ami_templates_mapping : Dict.t string :=
  [("us-east-1", "aws-ebs.json"); ("us-west-2", "aws-ebs-west-2.json")].

(** The double quote, for the messages that contain one. *)
Definition dq : string := String (Ascii.ascii_of_nat 34) EmptyString.

(** ** HTTP responses *)

(** What [requests.post] returns.  [json] is the decoded body as
    [str.format] prints it, or the error [Response.json()] raises when the
    body is not JSON. *)
Record Response := {
  status_code : Z;
  text : string;
  json : LibResult string;
}.

(** [requests.Response.ok]: true unless [raise_for_status()] would raise,
    which it does for [400 <= status_code < 600]. *)
Definition ok (r : Response) : bool :=
  negb ((400 <=? status_code r)%Z && (status_code r <? 600)%Z).

(** ** What an error message carries *)

(** [is_substring p s]: [p] occurs in [s]. *)
Fixpoint is_substring (p s : string) : bool :=
  String.prefix p s
  || match s with
     | EmptyString => false
     | String _ s' => is_substring p s'
     end.

Definition carries (e : exn) (what : string) : bool :=
  match e with
  | SpinnakerPipelineCreationFailed msg => is_substring what msg
  | KeyError key => is_substring what key
  | ExternalError w => is_substring what w
  end.

Section Foremast.

(** Data the code passes on without looking inside. *)
Context {Stage PipelineKeys Subnet Generated EnvConf Remote : Type}.

(** [settings[env]]: the regions of the environment and the rest of its
    configuration. *)
Record EnvSettings := {
  regions : list string;
  conf : EnvConf;
}.

(** [settings]: the ['pipeline'] entry and one entry per environment.
    [envs] holds the entries under every key other than ['pipeline'], so an
    environment that is itself named pipeline is not one of its keys: for
    such a name [settings[env]] is the ['pipeline'] entry. *)
Record Settings := {
  pipeline : PipelineSettings;
  envs : gmap string EnvSettings;
}.

(** A decoded pipeline: its ['stages'] list and the remaining keys, which
    assembly leaves alone, as the wrapper template produced them. *)
Record Pipeline := {
  stages : list Stage;
  other_keys : PipelineKeys;
}.

Definition extend (p : Pipeline) (block : list Stage) : Pipeline :=
  {| stages := stages p ++ block; other_keys := other_keys p |}.

Record SpinnakerPipeline := {
  self_base : string;
  trigger_job : string;
  generated : Generated;
  app_name : string;
  settings : Settings;
}.

Definition environments (self : SpinnakerPipeline) : list string :=
  env (pipeline (settings self)).

(** ** Events of a run *)

Inductive LogRecord :=
  | EnvironmentsAndRegions (regions_envs : Dict.t (list string))
  | NotAvailable (env region : string)
  | SuccessfullyCreated (name : string).

Inductive Event :=
  | CleanPipelines (app : string)
  | GetSubnets
  | AmiLookup (name region : string)
  | GetTemplate (template_file : string) (data : WrapperData)
  | ConstructPipelineBlock (env : string) (previous_env : option string)
      (region : string)
  | Post (url data : string)
  | Info (r : LogRecord).

(** ** The monad of a run: remote state, error result, trace *)

Definition M (A : Type) : Type := Remote → Result A * Remote * list Event.

Definition ret {A} (a : A) : M A := λ s, (Ok a, s, []).

Definition bind {A B} (m : M A) (k : A → M B) : M B := λ s,
  match m s with
  | (Ok a, s', t) =>
      match k a s' with (r, s'', t') => (r, s'', t ++ t') end
  | (Raise e, s', t) => (Raise e, s', t)
  end.

Definition raise {A} (e : exn) : M A := λ s, (Raise e, s, []).

Definition lift {A} (r : Result A) : M A := λ s, (r, s, []).

Definition emit (ev : Event) : M unit := λ s, (Ok tt, s, [ev]).

(** A call that reads no remote state leaves its event, then returns or
    raises. *)
Definition call {A} (ev : Event) (r : Result A) : M A := λ s, (r, s, [ev]).

(** A call that acts on the remote state. *)
Definition call_remote {A} (ev : Event) (f : Remote → Result A * Remote)
  : M A := λ s, match f s with (r, s') => (r, s', [ev]) end.

Definition result {A} (o : Result A * Remote * list Event) : Result A := o.1.1.
Definition final {A} (o : Result A * Remote * list Event) : Remote := o.1.2.
Definition trace {A} (o : Result A * Remote * list Event) : list Event := o.2.


#[local] Notation "x <- m ;; k" := (bind m (λ x, k))
  (at level 100, m at next level, right associativity).
#[local] Notation "m ;;; k" := (bind m (λ _, k))
  (at level 100, right associativity).

(** ** Collaborators

    The functions [create_pipeline.py] imports and the library calls it
    makes.  Each either returns or raises; [clean_pipelines] and
    [requests.post] act on the remote orchestrator. *)

Class Collaborators := {
  API_URL : string;
  clean_pipelines : string → Settings → Remote → Result unit * Remote;
  requests_post : string → string → Remote → LibResult Response * Remote;
  (** [json.dumps(pipeline)] *)
  json_dumps : Pipeline → string;
  (** [json.loads(pipeline_json)['name']] *)
  pipeline_name : string → LibResult string;
  get_subnets : Result (gmap string (gmap string Subnet));
  ami_lookup : string → string → Result string;
  get_template : string → WrapperData → Result string;
  (** [json.loads(wrapper)] *)
  json_loads_pipeline : string → LibResult Pipeline;
  construct_pipeline_block :
    string → Generated → option string → string → gmap string Subnet →
    EnvSettings → PipelineSettings → Result string;
  (** [json.loads(block)] *)
  json_loads_stages : string → LibResult (list Stage);
  (** [renumerate_stages(pipeline)] rewrites the pipeline in place. *)
  renumerate_stages : Pipeline → Result Pipeline;
}.

Context `{collaborators : !Collaborators}.

(** ** [SpinnakerPipeline.post_pipeline] *)

(** ["{0}/pipelines".format(API_URL)] *)
Definition pipelines_url : string := API_URL +:+ "/pipelines".

(** The body that is sent: a string as it is, anything else through
    [json.dumps]. *)
Definition to_json (pipeline : string + Pipeline) : string :=
  match pipeline with
  | inl s => s
  | inr p => json_dumps p
  end.

(** ['Failed to create pipeline for {0}: {1}'.format(app_name, payload)] *)
Definition failure_message (app payload : string) : string :=
  "Failed to create pipeline for " +:+ app +:+ ": " +:+ payload.

Definition post_pipeline (self : SpinnakerPipeline)
    (pipeline : string + Pipeline) : M unit :=
  let url := pipelines_url in
  let pipeline_json := to_json pipeline in
  pipeline_response <- call_remote (Post url pipeline_json)
                         (λ s, let (r, s') := requests_post url pipeline_json s
                               in (lib r, s')) ;;
  if negb (ok pipeline_response) then
    payload <- lift (lib (json pipeline_response)) ;;
    raise (SpinnakerPipelineCreationFailed
             (failure_message (app_name self) payload))
  else
    name <- lift (lib (pipeline_name pipeline_json)) ;;
    emit (Info (SuccessfullyCreated name)).

(** ** [SpinnakerPipeline.render_wrapper] *)

(** ['Setting "root_volume_size" over 50G is not allowed. We found {0}G in
    your configs.'.format(root_volume_size)] *)
Definition root_volume_size_message (root_volume_size : Z) : string :=
  "Setting " +:+ dq +:+ "root_volume_size" +:+ dq
  +:+ " over 50G is not allowed. We found "
  +:+ pretty root_volume_size +:+ "G in your configs.".

Definition render_wrapper (self : SpinnakerPipeline) (region : string)
    : M Pipeline :=
  let base0 := base (pipeline (settings self)) in
  let base := if String.eqb (self_base self) EmptyString then base0
              else self_base self in
  let email := email (notifications (pipeline (settings self))) in
  let slack := slack (notifications (pipeline (settings self))) in
  let root_volume_size := root_volume_size (image (pipeline (settings self))) in
  if (50 <? root_volume_size)%Z then
    raise (SpinnakerPipelineCreationFailed
             (root_volume_size_message root_volume_size))
  else
    ami_id <- call (AmiLookup base region) (ami_lookup base region) ;;
    let data := {|
      wd_ami_id := ami_id;
      wd_appname := app_name self;
      wd_base := base;
      wd_environment := "packaging";
      wd_region := region;
      wd_triggerjob := trigger_job self;
      wd_email := email;
      wd_slack := slack;
      wd_root_volume_size := root_volume_size;
      wd_ami_template_file :=
        dict_get_default region
          (dict_get_default "us-east-1" EmptyString ami_templates_mapping)
          ami_templates_mapping;
    |} in
    let template_file := "pipeline-templates/pipeline_wrapper.json" in
    wrapper <- call (GetTemplate template_file data)
                 (get_template template_file data) ;;
    lift (lib (json_loads_pipeline wrapper)).

(** ** [SpinnakerPipeline.create_pipeline] *)

(** [d[k]] on a dictionary that is only read. *)
Definition getitem {V} (d : gmap string V) (k : string) : Result V :=
  match d !! k with
  | Some v => Ok v
  | None => Raise (KeyError k)
  end.

(** Lines 144-147: the loop over [self.settings[env]['regions']] ... *)
Definition append_regions (env : string) (regions : list string)
    (regions_envs : Dict.t (list string)) : Dict.t (list string) :=
  foldl (λ d region, Dict.append region env d) regions_envs regions.

(** ... inside the loop over [pipeline_envs]. *)
Fixpoint resolve_regions_envs (self : SpinnakerPipeline)
    (pipeline_envs : list string) (regions_envs : Dict.t (list string))
    : Result (Dict.t (list string)) :=
  match pipeline_envs with
  | [] => Ok regions_envs
  | env :: rest =>
      match getitem (envs (settings self)) env with
      | Ok s => resolve_regions_envs self rest
                  (append_regions env (regions s) regions_envs)
      | Raise e => Raise e
      end
  end.

(** [subnets[env][region]]; [None] is the [KeyError] of line 163. *)
Definition subnets_lookup (subnets : gmap string (gmap string Subnet))
    (env region : string) : option Subnet :=
  subnets !! env ≫= (λ m, m !! region).

(** Lines 160-178: the loop over the environments of one region.  The
    pipeline of the region is extended in place. *)
Fixpoint render_envs (self : SpinnakerPipeline)
    (subnets : gmap string (gmap string Subnet)) (region : string)
    (envs_of_region : list string) (previous_env : option string)
    (p : Pipeline) : M Pipeline :=
  match envs_of_region with
  | [] => ret p
  | env :: rest =>
      match subnets_lookup subnets env region with
      | None =>
          emit (Info (NotAvailable env region)) ;;;
          render_envs self subnets region rest previous_env p
      | Some subnet =>
          let region_subnets : gmap string Subnet := {[ region := subnet ]} in
          env_settings <- lift (getitem (envs (settings self)) env) ;;
          block <- call (ConstructPipelineBlock env previous_env region)
                     (construct_pipeline_block env (generated self)
                        previous_env region region_subnets env_settings
                        (pipeline (settings self))) ;;
          block_stages <- lift (lib (json_loads_stages block)) ;;
          render_envs self subnets region rest (Some env)
            (extend p block_stages)
      end
  end.

(** Lines 153-178: the loop over [regions_envs.items()].  The wrapper is
    stored under [pipelines[region]] and its stage list is then extended in
    place, so the entry of the region is the extended pipeline. *)
Fixpoint render_regions (self : SpinnakerPipeline)
    (subnets : gmap string (gmap string Subnet))
    (items : list (string * list string)) (pipelines : Dict.t Pipeline)
    : M (Dict.t Pipeline) :=
  match items with
  | [] => ret pipelines
  | (region, envs_of_region) :: rest =>
      wrapper <- render_wrapper self region ;;
      p <- render_envs self subnets region envs_of_region None wrapper ;;
      render_regions self subnets rest (Dict.set region p pipelines)
  end.

(** Lines 182-185: the loop over [pipelines.items()]. *)
Fixpoint post_pipelines (self : SpinnakerPipeline)
    (items : list (string * Pipeline)) : M unit :=
  match items with
  | [] => ret tt
  | (region, p) :: rest =>
      p' <- lift (renumerate_stages p) ;;
      post_pipeline self (inr p') ;;;
      post_pipelines self rest
  end.

Definition create_pipeline (self : SpinnakerPipeline) : M bool :=
  call_remote (CleanPipelines (app_name self))
    (clean_pipelines (app_name self) (settings self)) ;;;
  let pipeline_envs := environments self in
  regions_envs <- lift (resolve_regions_envs self pipeline_envs []) ;;
  emit (Info (EnvironmentsAndRegions regions_envs)) ;;;
  subnets <- call GetSubnets get_subnets ;;
  pipelines <- render_regions self subnets regions_envs [] ;;
  post_pipelines self pipelines ;;;
  ret true.

(** ** The specification's vocabulary *)

(** The regions an environment declares, [settings[env]['regions']]. *)
Definition regions_of (self : SpinnakerPipeline) (env : string) : list string :=
  match envs (settings self) !! env with
  | Some s => regions s
  | None => []
  end.

(** The environments that declare [region], in declaration order: one entry
    for each time an environment lists the region. *)
Definition envs_declaring (self : SpinnakerPipeline) (region : string)
    (pipeline_envs : list string) : list string :=
  flat_map
    (λ env, flat_map (λ r, if String.eqb r region then [env] else [])
              (regions_of self env))
    pipeline_envs.

(** [env] is available in [region]: [subnets[env][region]] exists. *)
Definition available (subnets : gmap string (gmap string Subnet))
    (region env : string) : bool :=
  match subnets_lookup subnets env region with
  | Some _ => true
  | None => false
  end.

Definition available_envs (subnets : gmap string (gmap string Subnet))
    (region : string) (envs_of_region : list string) : list string :=
  filter (λ env, available subnets region env) envs_of_region.

(** Each environment of a list with its chaining predecessor: the one just
    before it in the list, [previous_env] for the first. *)
Fixpoint chained (previous_env : option string) (l : list string)
    : list (string * option string) :=
  match l with
  | [] => []
  | env :: rest => (env, previous_env) :: chained (Some env) rest
  end.

(** The stage block of an available environment, rendered with a given
    predecessor. *)
Definition rendered_block (self : SpinnakerPipeline)
    (subnets : gmap string (gmap string Subnet)) (region : string)
    (env_prev : string * option string) : Result (list Stage) :=
  match subnets_lookup subnets env_prev.1 region with
  | None => Raise (KeyError region)
  | Some subnet =>
      env_settings ← getitem (envs (settings self)) env_prev.1;
      block ← construct_pipeline_block env_prev.1 (generated self) env_prev.2
                region {[ region := subnet ]} env_settings
                (pipeline (settings self));
      lib (json_loads_stages block)
  end.

(** The pipeline of a region as the specification describes it: the
    wrapper's stages, then the blocks of the available environments in
    declaration order, each chained to the one before. *)
Definition assemble (self : SpinnakerPipeline)
    (subnets : gmap string (gmap string Subnet)) (region : string)
    (envs_of_region : list string) (s : Remote) : Result Pipeline :=
  wrapper ← result (render_wrapper self region s);
  blocks ← mapM (rendered_block self subnets region)
              (chained None (available_envs subnets region envs_of_region));
  Ok {| stages := stages wrapper ++ concat blocks;
        other_keys := other_keys wrapper |}.

(** One entry of the assembled [pipelines] dictionary. *)
Definition assemble_item (self : SpinnakerPipeline)
    (subnets : gmap string (gmap string Subnet)) (s : Remote)
    (item : string * list string) : Result (string * Pipeline) :=
  p ← assemble self subnets item.1 item.2 s; Ok (item.1, p).

(** The calls of [construct_pipeline_block] in a trace:
    (env, previous_env, region). *)
Definition construct_calls (t : list Event)
    : list (string * option string * string) :=
  omap (λ ev, match ev with
              | ConstructPipelineBlock env previous_env region =>
                  Some (env, previous_env, region)
              | _ => None
              end) t.

(** The pipelines sent to the orchestrator in a trace. *)
Definition posts (t : list Event) : list string :=
  omap (λ ev, match ev with Post _ data => Some data | _ => None end) t.

(** The events the loop over the environments of a region leaves when
    nothing raises: a skip record for an unavailable environment, a block
    rendering for an available one. *)
Fixpoint region_events (subnets : gmap string (gmap string Subnet))
    (region : string) (previous_env : option string)
    (envs_of_region : list string) : list Event :=
  match envs_of_region with
  | [] => []
  | env :: rest =>
      if available subnets region env
      then ConstructPipelineBlock env previous_env region
           :: region_events subnets region (Some env) rest
      else Info (NotAvailable env region)
           :: region_events subnets region previous_env rest
  end.

(** Modelled from the spec: [clean_pipelines] and the orchestrator behind
    [POST /pipelines] are not part of the sources.  The specification's
    replacement controller deletes the generated pipelines of the
    application before anything is created, as a best-effort cleanup: a
    deletion that fails is logged and does not abort, so a clean step that
    returns may have left some of them behind, and it adds none.  An
    accepted [POST] stores the pipeline it carries.  [generated_pipelines s]
    lists the generated pipelines of the application present remotely in
    state [s]. *)
Definition best_effort_replacement
    (generated_pipelines : Remote → list string)
    (self : SpinnakerPipeline) : Prop :=
  (∀ s s', clean_pipelines (app_name self) (settings self) s = (Ok tt, s') →
           generated_pipelines s' `sublist_of` generated_pipelines s)
  ∧ (∀ url data s r s',
       requests_post url data s = (r, s') →
       generated_pipelines s'
       = match r with
         | Returns resp =>
             if ok resp then generated_pipelines s ++ [data]
             else generated_pipelines s
         | Throws _ => generated_pipelines s
         end).

(** The events before the pipelines are rendered. *)
Definition preamble (self : SpinnakerPipeline)
    (regions_envs : Dict.t (list string)) : list Event :=
  [CleanPipelines (app_name self); Info (EnvironmentsAndRegions regions_envs);
   GetSubnets].

(** The calls a run makes before it renders anything. *)
Definition before_rendering (ev : Event) : Prop :=
  match ev with
  | CleanPipelines _ | Info (EnvironmentsAndRegions _) | GetSubnets => True
  | _ => False
  end.

(** Lines 153-185 for a given mapping: the rendering loop, then the
    publishing loop on the pipelines it assembled. *)
Definition render_and_post (self : SpinnakerPipeline)
    (subnets : gmap string (gmap string Subnet))
    (regions_envs : Dict.t (list string)) : M unit :=
  pipelines <- render_regions self subnets regions_envs [] ;;
  post_pipelines self pipelines.

(** ** Dictionaries *)

Lemma get_append_eq {X} k (x : X) d :
  Dict.get k (Dict.append k x d) = Some (default [] (Dict.get k d) ++ [x]).
Proof.
  induction d as [|[k' xs] d IH]; simpl.
  - by rewrite String.eqb_refl.
  - destruct (String.eqb k' k) eqn:E; simpl; rewrite E; [done|apply IH].
Qed.

Lemma get_append_ne {X} k k' (x : X) d :
  k ≠ k' → Dict.get k' (Dict.append k x d) = Dict.get k' d.
Proof.
  intros Hne. induction d as [|[k0 xs] d IH]; simpl.
  - destruct (String.eqb_spec k k'); done.
  - destruct (String.eqb_spec k0 k) as [->|]; simpl.
    + destruct (String.eqb_spec k k'); done.
    + by rewrite IH.
Qed.

Lemma keys_append {X} k (x : X) d :
  Dict.keys (Dict.append k x d)
  = if bool_decide (k ∈ Dict.keys d) then Dict.keys d else Dict.keys d ++ [k].
Proof.
  unfold Dict.keys. induction d as [|[k0 xs] d IH]; csimpl; [done|].
  destruct (String.eqb_spec k0 k) as [->|Hne]; csimpl.
  - rewrite bool_decide_eq_true_2; [done|set_solver].
  - rewrite IH. case_bool_decide as H1; case_bool_decide as H2; set_solver.
Qed.

(** ** Matrix resolution (lines 144-147) *)

Lemma get_append_regions (env : string) rs (d : Dict.t (list string)) r :
  default [] (Dict.get r (append_regions env rs d))
  = default [] (Dict.get r d)
    ++ flat_map (λ r0, if String.eqb r0 r then [env] else []) rs.
Proof.
  unfold append_regions. revert d.
  induction rs as [|r0 rs IH]; intros d; simpl.
  - by rewrite app_nil_r.
  - rewrite IH. destruct (String.eqb_spec r0 r) as [->|Hne].
    + rewrite get_append_eq. simpl. by rewrite <-app_assoc.
    + by rewrite get_append_ne.
Qed.

Lemma keys_append_regions (env : string) rs (d : Dict.t (list string)) r :
  r ∈ Dict.keys (append_regions env rs d) ↔ r ∈ Dict.keys d ∨ r ∈ rs.
Proof.
  unfold append_regions. revert d.
  induction rs as [|r0 rs IH]; intros d; simpl.
  - rewrite elem_of_nil. tauto.
  - rewrite IH, keys_append, elem_of_cons.
    case_bool_decide as Hin.
    + split; [tauto|]. intros [?|[->|?]]; tauto.
    + rewrite elem_of_app, list_elem_of_singleton. split; [|tauto].
      intros [[?|?]|?]; auto.
Qed.

Lemma NoDup_keys_append_regions (env : string) rs (d : Dict.t (list string)) :
  NoDup (Dict.keys d) → NoDup (Dict.keys (append_regions env rs d)).
Proof.
  unfold append_regions. revert d.
  induction rs as [|r0 rs IH]; intros d Hd; simpl; [done|].
  apply IH. rewrite keys_append. case_bool_decide as Hin; [done|].
  apply NoDup_app. split_and!; [done| |apply NoDup_singleton].
  intros x Hx ->%list_elem_of_singleton. done.
Qed.

Lemma regions_of_lookup self env s :
  envs (settings self) !! env = Some s → regions_of self env = regions s.
Proof. unfold regions_of. by intros ->. Qed.

Lemma resolve_regions_envs_acc self pipeline_envs d :
  (∀ env, env ∈ pipeline_envs → is_Some (envs (settings self) !! env)) →
  ∃ d', resolve_regions_envs self pipeline_envs d = Ok d'
    ∧ (NoDup (Dict.keys d) → NoDup (Dict.keys d'))
    ∧ (∀ r, r ∈ Dict.keys d' ↔
            r ∈ Dict.keys d
            ∨ ∃ env, env ∈ pipeline_envs ∧ r ∈ regions_of self env)
    ∧ (∀ r, default [] (Dict.get r d')
            = default [] (Dict.get r d) ++ envs_declaring self r pipeline_envs).
Proof.
  revert d. induction pipeline_envs as [|env rest IH]; intros d Hall; simpl.
  - exists d. split_and!; [done|done| |by intros; rewrite app_nil_r].
    intros r. split; [tauto|]. intros [?|(?&[]%elem_of_nil&_)]. done.
  - destruct (Hall env) as [s Hs]; [by left|].
    unfold getitem. rewrite Hs.
    destruct (IH (append_regions env (regions s) d)) as (d'&->&Hnd&Hk&Hg).
    { intros e He. apply Hall. by right. }
    exists d'. split_and!; [done| | |].
    + intros Hd. by apply Hnd, NoDup_keys_append_regions.
    + intros r. rewrite Hk, keys_append_regions.
      rewrite <-(regions_of_lookup self env s Hs). split.
      * intros [[?|?]|(e&?&?)]; [by left| |].
        -- right. exists env. split; [by left|done].
        -- right. exists e. split; [by right|done].
      * intros [?|(e&[->|?]%elem_of_cons&?)]; [by left;left|by left;right|].
        right. by exists e.
    + intros r. rewrite Hg, get_append_regions, <-app_assoc.
      by rewrite (regions_of_lookup self env s Hs).
Qed.

Lemma declaring_once (env region : string) rs :
  NoDup rs →
  flat_map (λ r : string, if String.eqb r region then [env] else []) rs
  = if bool_decide (region ∈ rs) then [env] else [].
Proof.
  induction 1 as [|r rs Hr Hrs IH]; simpl; [done|].
  rewrite IH. destruct (String.eqb_spec r region) as [->|Hne]; simpl.
  - rewrite (bool_decide_eq_false_2 (region ∈ rs)) by done.
    by rewrite bool_decide_eq_true_2 by (by left).
  - case_bool_decide as H1; case_bool_decide as H2; try done.
    + destruct H2. by right.
    + apply elem_of_cons in H2 as [->|?]; done.
Qed.

Lemma envs_declaring_filter self region pipeline_envs :
  (∀ env, env ∈ pipeline_envs → NoDup (regions_of self env)) →
  envs_declaring self region pipeline_envs
  = filter (λ env, region ∈ regions_of self env) pipeline_envs.
Proof.
  unfold envs_declaring.
  induction pipeline_envs as [|env rest IH]; intros Hnd; simpl; [done|].
  rewrite IH by (intros e He; apply Hnd; by right).
  rewrite declaring_once by (apply Hnd; by left).
  rewrite filter_cons. case_bool_decide; by case_decide.
Qed.

Lemma elem_of_envs_declaring self region pipeline_envs env :
  env ∈ envs_declaring self region pipeline_envs
  ↔ env ∈ pipeline_envs ∧ region ∈ regions_of self env.
Proof.
  unfold envs_declaring. rewrite list_elem_of_In, in_flat_map. split.
  - intros (e&He&Hin). apply in_flat_map in Hin as (r&Hr&Hin).
    destruct (String.eqb_spec r region) as [->|]; [|done].
    destruct Hin as [->|[]]. by rewrite !list_elem_of_In.
  - intros [He Hr]. exists env. split; [by apply list_elem_of_In|].
    apply in_flat_map. exists region. split; [by apply list_elem_of_In|].
    rewrite String.eqb_refl. by left.
Qed.

Lemma resolve_regions_envs_cons self env rest d s :
  envs (settings self) !! env = Some s →
  resolve_regions_envs self (env :: rest) d
  = resolve_regions_envs self rest (append_regions env (regions s) d).
Proof. intros Hs. simpl. unfold getitem. by rewrite Hs. Qed.

(** C3: for every ordered list of environments that each declare their
    regions, matrix resolution succeeds and maps each region (the keys are
    exactly the declared regions, each once) to exactly the environments
    that declare it, in their declaration order; an environment is listed
    once for each time it lists the region, so the entry is the declaration
    list filtered by "declares the region" when no environment repeats a
    region.  In particular dev(us-east-1), stage(us-east-1, us-west-2),
    prod(us-west-2) resolve to us-east-1: [dev, stage], us-west-2:
    [stage, prod]. *)
Theorem matrix_resolution (self : SpinnakerPipeline)
    (pipeline_envs : list string) :
  (∀ env, env ∈ pipeline_envs → is_Some (envs (settings self) !! env)) →
  ∃ regions_envs,
    resolve_regions_envs self pipeline_envs [] = Ok regions_envs
    ∧ NoDup (Dict.keys regions_envs)
    ∧ (∀ region, region ∈ Dict.keys regions_envs ↔
         ∃ env, env ∈ pipeline_envs ∧ region ∈ regions_of self env)
    ∧ (∀ region es, Dict.get region regions_envs = Some es →
         es = envs_declaring self region pipeline_envs
         ∧ (∀ env, env ∈ es ↔
              env ∈ pipeline_envs ∧ region ∈ regions_of self env)
         ∧ ((∀ env, env ∈ pipeline_envs → NoDup (regions_of self env)) →
            es = filter (λ env, region ∈ regions_of self env) pipeline_envs))
    ∧ (pipeline_envs = ["dev"; "stage"; "prod"] →
       regions_of self "dev" = ["us-east-1"] →
       regions_of self "stage" = ["us-east-1"; "us-west-2"] →
       regions_of self "prod" = ["us-west-2"] →
       regions_envs = [("us-east-1", ["dev"; "stage"]);
                       ("us-west-2", ["stage"; "prod"])]).
Proof.
  intros Hall.
  destruct (resolve_regions_envs_acc self pipeline_envs [] Hall)
    as (d & Hres & Hnd & Hkeys & Hget).
  exists d. split_and!; [done|apply Hnd, NoDup_nil_2| | |].
  - intros region. rewrite Hkeys. split; [|by right].
    by intros [[]%elem_of_nil|?].
  - intros region es Hes.
    assert (es = envs_declaring self region pipeline_envs) as ->.
    { specialize (Hget region). rewrite Hes in Hget. done. }
    split_and!; [done|apply elem_of_envs_declaring|].
    apply envs_declaring_filter.
  - intros -> Hdev Hstage Hprod.
    destruct (Hall "dev") as [s1 H1]; [set_solver|].
    destruct (Hall "stage") as [s2 H2]; [set_solver|].
    destruct (Hall "prod") as [s3 H3]; [set_solver|].
    rewrite (regions_of_lookup _ _ _ H1) in Hdev.
    rewrite (regions_of_lookup _ _ _ H2) in Hstage.
    rewrite (regions_of_lookup _ _ _ H3) in Hprod.
    rewrite (resolve_regions_envs_cons _ _ _ _ _ H1) in Hres.
    rewrite (resolve_regions_envs_cons _ _ _ _ _ H2) in Hres.
    rewrite (resolve_regions_envs_cons _ _ _ _ _ H3) in Hres.
    rewrite Hdev, Hstage, Hprod in Hres. by injection Hres as <-.
Qed.

(** ** Runs *)

Lemma bind_run {A B} (m : M A) (k : A → M B) s :
  bind m k s
  = match m s with
    | (Ok a, s', t) => (result (k a s'), final (k a s'), t ++ trace (k a s'))
    | (Raise e, s', t) => (Raise e, s', t)
    end.
Proof.
  unfold bind, result, final, trace.
  destruct (m s) as [[[a|e] s'] t]; [|done]. by destruct (k a s') as [[??]?].
Qed.

(** Rendering the wrapper does not touch the remote state and does not
    depend on it. *)
Lemma render_wrapper_pure self region s s' :
  render_wrapper self region s
  = (result (render_wrapper self region s'), s,
     trace (render_wrapper self region s')).
Proof.
  unfold render_wrapper. case_match; [done|].
  rewrite !bind_run. unfold call.
  destruct (ami_lookup _ _) as [ami|e]; [|done].
  rewrite !bind_run. unfold call, lift.
  by destruct (get_template _ _) as [w|e].
Qed.

Lemma extend_nil (p : Pipeline) : extend p [] = p.
Proof. destruct p. unfold extend. simpl. by rewrite app_nil_r. Qed.

Lemma extend_extend (p : Pipeline) b1 b2 :
  extend (extend p b1) b2 = extend p (b1 ++ b2).
Proof. unfold extend. simpl. by rewrite app_assoc. Qed.

Lemma available_envs_cons subnets region env rest :
  available_envs subnets region (env :: rest)
  = if available subnets region env
    then env :: available_envs subnets region rest
    else available_envs subnets region rest.
Proof.
  unfold available_envs. rewrite filter_cons.
  destruct (available subnets region env); by case_decide.
Qed.

Lemma rendered_block_available self subnets region env previous_env subnet :
  subnets_lookup subnets env region = Some subnet →
  rendered_block self subnets region (env, previous_env)
  = (env_settings ← getitem (envs (settings self)) env;
     block ← construct_pipeline_block env (generated self) previous_env
               region {[ region := subnet ]} env_settings
               (pipeline (settings self));
     lib (json_loads_stages block)).
Proof. unfold rendered_block. simpl. by intros ->. Qed.

Lemma mapM_Result_cons {A B} (f : A → Result B) x l :
  mapM f (x :: l) = (y ← f x; k ← mapM f l; Ok (y :: k)).
Proof. done. Qed.

(** The loop over the environments of one region: its result, and the
    events it leaves. *)
Lemma render_envs_run self subnets region envs_of_region previous_env p s :
  ∃ t,
    render_envs self subnets region envs_of_region previous_env p s
    = (blocks ← mapM (rendered_block self subnets region)
                  (chained previous_env
                     (available_envs subnets region envs_of_region));
       Ok (extend p (concat blocks)), s, t)
    ∧ t `prefix_of` region_events subnets region previous_env envs_of_region
    ∧ (is_Ok (result (render_envs self subnets region envs_of_region
                        previous_env p s)) →
       t = region_events subnets region previous_env envs_of_region).
Proof.
  revert previous_env p.
  induction envs_of_region as [|env rest IH]; intros previous_env p.
  { exists []. simpl. by rewrite extend_nil. }
  cbn [render_envs region_events]. cbv zeta.
  rewrite available_envs_cons. unfold available.
  destruct (subnets_lookup subnets env region) as [subnet|] eqn:Hsub.
  - cbn [chained]. rewrite mapM_Result_cons.
    rewrite (rendered_block_available _ _ _ _ _ _ Hsub).
    unfold bind, lift, call.
    destruct (getitem _ env) as [env_settings|e]; cbn [mbind Result_bind];
      [|exists []; by split_and!; [|apply prefix_nil|]].
    destruct (construct_pipeline_block _ _ _ _ _ _ _) as [block|e];
      cbn [mbind Result_bind];
      [|eexists; by split_and!; [|apply prefix_cons, prefix_nil|]].
    destruct (json_loads_stages block) as [block_stages|e];
      cbn [mbind Result_bind lib];
      [|eexists; by split_and!; [|apply prefix_cons, prefix_nil|]].
    destruct (IH (Some env) (extend p block_stages)) as (t & Hrun & Ht & Hok).
    rewrite Hrun in Hok |- *. exists (ConstructPipelineBlock env previous_env region :: t).
    split_and!.
    + destruct (mapM _ _) as [blocks|e]; cbn [mbind Result_bind]; [|done].
      by rewrite extend_extend.
    + by apply prefix_cons.
    + unfold result in *. simpl in *. intros H. by rewrite Hok.
  - destruct (IH previous_env p) as (t & Hrun & Ht & Hok).
    unfold bind, emit. rewrite Hrun in Hok |- *.
    exists (Info (NotAvailable env region) :: t). split_and!; [done| |].
    + by apply prefix_cons.
    + unfold result in *. simpl in *. intros H. by rewrite Hok.
Qed.

Lemma set_fresh {V} k (v : V) (d : Dict.t V) :
  k ∉ Dict.keys d → Dict.set k v d = d ++ [(k, v)].
Proof.
  unfold Dict.keys. induction d as [|[k0 v0] d IH]; csimpl; [done|].
  intros [Hne Hk]%not_elem_of_cons.
  destruct (String.eqb_spec k0 k) as [->|_]; [done|]. by rewrite IH.
Qed.

Lemma mapM_Result_Ok {A B} (f : A → Result B) l ys :
  mapM f l = Ok ys ↔ Forall2 (λ x y, f x = Ok y) l ys.
Proof.
  revert ys. induction l as [|x l IH]; intros ys.
  - simpl. split; [by intros [= <-]; constructor|by inversion 1].
  - rewrite mapM_Result_cons. split.
    + destruct (f x) as [y|e] eqn:Hfx; cbn [mbind Result_bind]; [|done].
      destruct (mapM f l) as [k|e]; cbn [mbind Result_bind]; [|done].
      intros [= <-]. constructor; [done|]. by apply IH.
    + inversion 1 as [|? y ? k Hy Hk]; subst. rewrite Hy.
      apply IH in Hk. rewrite Hk. done.
Qed.

Lemma assemble_item_keys self subnets s items ps :
  mapM (assemble_item self subnets s) items = Ok ps →
  Dict.keys ps = Dict.keys items.
Proof.
  rewrite mapM_Result_Ok. unfold Dict.keys.
  induction 1 as [|[r es] [r' p] items ps Hx _ IH]; csimpl; [done|].
  rewrite IH. f_equal. unfold assemble_item in Hx. simpl in Hx.
  destruct (assemble _ _ _ _ _); simpl in Hx; by simplify_eq.
Qed.

Lemma assemble_item_unfold self subnets s region envs_of_region :
  assemble_item self subnets s (region, envs_of_region)
  = (wrapper ← result (render_wrapper self region s);
     blocks ← mapM (rendered_block self subnets region)
                (chained None (available_envs subnets region envs_of_region));
     Ok (region, extend wrapper (concat blocks))).
Proof.
  unfold assemble_item, assemble. simpl.
  destruct (result _) as [wrapper|e]; simpl; [|done].
  by destruct (mapM _ _).
Qed.

(** The loop over the regions: every region is assembled from the same
    remote state, which rendering does not change. *)
Lemma render_regions_run self subnets items pipelines s :
  NoDup (Dict.keys pipelines ++ Dict.keys items) →
  ∃ t,
    render_regions self subnets items pipelines s
    = (ps ← mapM (assemble_item self subnets s) items; Ok (pipelines ++ ps),
       s, t).
Proof.
  revert pipelines.
  induction items as [|[region envs_of_region] rest IH];
    intros pipelines Hnd.
  { exists []. simpl. by rewrite app_nil_r. }
  cbn [render_regions]. rewrite mapM_Result_cons.
  rewrite assemble_item_unfold.
  unfold bind at 1. rewrite (render_wrapper_pure self region s s).
  destruct (result (render_wrapper self region s)) as [wrapper|e];
    cbn [mbind Result_bind]; [|by eexists].
  unfold bind at 1.
  destruct (render_envs_run self subnets region envs_of_region None wrapper s)
    as (t & -> & _).
  destruct (mapM (rendered_block _ _ _) _) as [blocks|e];
    cbn [mbind Result_bind]; [|by eexists].
  unfold Dict.keys in Hnd. rewrite fmap_cons in Hnd. cbn [fst] in Hnd.
  destruct (IH (Dict.set region (extend wrapper (concat blocks)) pipelines))
    as (t' & ->).
  { rewrite set_fresh.
    - unfold Dict.keys. rewrite fmap_app, <-app_assoc. done.
    - apply NoDup_app in Hnd as (_ & Hnd & _). intros Hin.
      apply (Hnd _ Hin). by left. }
  eexists. do 2 f_equal.
  destruct (mapM _ rest) as [ps|e]; cbn [mbind Result_bind]; [|done].
  rewrite set_fresh.
  - by rewrite <-app_assoc.
  - apply NoDup_app in Hnd as (_ & Hnd & _). intros Hin.
    apply (Hnd _ Hin). by left.
Qed.

Lemma length_chained previous_env l :
  length (chained previous_env l) = length l.
Proof.
  revert previous_env. induction l as [|e l IH]; intros o; simpl; [done|].
  by rewrite IH.
Qed.

Lemma length_concat_sum {A} (ls : list (list A)) :
  length (concat ls) = sum_list (length <$> ls).
Proof.
  induction ls as [|b bs IH]; simpl; [done|]. by rewrite length_app, IH.
Qed.

Lemma resolve_regions_envs_NoDup self pipeline_envs d d' :
  resolve_regions_envs self pipeline_envs d = Ok d' →
  NoDup (Dict.keys d) → NoDup (Dict.keys d').
Proof.
  revert d. induction pipeline_envs as [|env rest IH]; intros d; simpl.
  - by intros [= ->].
  - destruct (getitem _ env) as [es|e]; [|done].
    intros Hres Hd. apply (IH _ Hres). by apply NoDup_keys_append_regions.
Qed.

Lemma resolved_NoDup self pipeline_envs regions_envs :
  resolve_regions_envs self pipeline_envs [] = Ok regions_envs →
  NoDup (Dict.keys regions_envs).
Proof.
  intros Hres. eapply resolve_regions_envs_NoDup; [done|apply NoDup_nil_2].
Qed.

Lemma assemble_items_get self subnets s items ps region envs_of_region :
  mapM (assemble_item self subnets s) items = Ok ps →
  Dict.get region items = Some envs_of_region →
  ∃ p, Dict.get region ps = Some p
       ∧ assemble self subnets region envs_of_region s = Ok p.
Proof.
  rewrite mapM_Result_Ok.
  induction 1 as [|[r es] [r' p] items ps Hx _ IH]; simpl; [done|].
  unfold assemble_item in Hx. simpl in Hx.
  destruct (assemble self subnets r es s) as [p0|e] eqn:Hp; simpl in Hx;
    [|done].
  injection Hx as <- <-.
  destruct (String.eqb_spec r region) as [->|Hne]; [|done].
  intros [= <-]. by exists p0.
Qed.

Lemma assemble_Ok self subnets region envs_of_region s p :
  assemble self subnets region envs_of_region s = Ok p →
  ∃ wrapper blocks,
    result (render_wrapper self region s) = Ok wrapper
    ∧ Forall2 (λ env_prev block,
                 rendered_block self subnets region env_prev = Ok block)
        (chained None (available_envs subnets region envs_of_region)) blocks
    ∧ p = extend wrapper (concat blocks).
Proof.
  unfold assemble.
  destruct (result _) as [wrapper|e]; cbn [mbind Result_bind]; [|done].
  destruct (mapM _ _) as [blocks|e] eqn:Hb; cbn [mbind Result_bind]; [|done].
  intros [= <-]. exists wrapper, blocks. by apply mapM_Result_Ok in Hb.
Qed.

(** The assembled pipeline of a region of the resolved mapping. *)
Lemma assembled_region self subnets regions_envs s pipelines region
    envs_of_region :
  resolve_regions_envs self (environments self) [] = Ok regions_envs →
  result (render_regions self subnets regions_envs [] s) = Ok pipelines →
  Dict.get region regions_envs = Some envs_of_region →
  ∃ wrapper blocks p,
    result (render_wrapper self region s) = Ok wrapper
    ∧ Forall2 (λ env_prev block,
                 rendered_block self subnets region env_prev = Ok block)
        (chained None (available_envs subnets region envs_of_region)) blocks
    ∧ Dict.get region pipelines = Some p
    ∧ p = extend wrapper (concat blocks).
Proof.
  intros Hres Hrun Hget.
  destruct (render_regions_run self subnets regions_envs [] s) as (t & Ht).
  { simpl. by eapply resolved_NoDup. }
  rewrite Ht in Hrun. unfold result in Hrun. simpl in Hrun.
  destruct (mapM _ _) as [ps|e] eqn:Hps; simpl in Hrun; [|done].
  injection Hrun as <-.
  destruct (assemble_items_get _ _ _ _ _ _ _ Hps Hget) as (p & Hp & Has).
  destruct (assemble_Ok _ _ _ _ _ _ Has) as (wrapper & blocks & ? & ? & ?).
  by exists wrapper, blocks, p.
Qed.

(** C1: for every region of the resolved mapping, the assembled pipeline's
    stage sequence is the wrapper's stages followed by the stage blocks of
    the region's available environments, in declaration order. The loop over
    the regions returns exactly these pipelines, and raises exactly when the
    wrapper or a block of some region does. *)
Theorem assembled_stage_sequence (self : SpinnakerPipeline)
    (subnets : gmap string (gmap string Subnet))
    (regions_envs : Dict.t (list string)) (s : Remote) :
  resolve_regions_envs self (environments self) [] = Ok regions_envs →
  result (render_regions self subnets regions_envs [] s)
  = mapM (assemble_item self subnets s) regions_envs
  ∧ ∀ pipelines,
      result (render_regions self subnets regions_envs [] s) = Ok pipelines →
      ∀ region envs_of_region,
        Dict.get region regions_envs = Some envs_of_region →
        ∃ wrapper blocks p,
          result (render_wrapper self region s) = Ok wrapper
          ∧ Forall2 (λ env_prev block,
                       rendered_block self subnets region env_prev = Ok block)
              (chained None (available_envs subnets region envs_of_region))
              blocks
          ∧ Dict.get region pipelines = Some p
          ∧ stages p = stages wrapper ++ concat blocks.
Proof.
  intros Hres. split.
  - destruct (render_regions_run self subnets regions_envs [] s) as (t & ->).
    { simpl. by eapply resolved_NoDup. }
    unfold result. simpl. by destruct (mapM _ _).
  - intros pipelines Hrun region envs_of_region Hget.
    destruct (assembled_region _ _ _ _ _ _ _ Hres Hrun Hget)
      as (wrapper & blocks & p & ? & ? & ? & ->).
    by exists wrapper, blocks, (extend wrapper (concat blocks)).
Qed.

(** C2: for every region of the resolved mapping, the assembled pipeline has
    as many stages as the wrapper plus the blocks rendered for the region's
    available environments (one block for each), and holds the same stages:
    none is dropped or duplicated. *)
Theorem stage_count_conservation (self : SpinnakerPipeline)
    (subnets : gmap string (gmap string Subnet))
    (regions_envs : Dict.t (list string)) (s : Remote)
    (pipelines : Dict.t Pipeline) (region : string)
    (envs_of_region : list string) :
  resolve_regions_envs self (environments self) [] = Ok regions_envs →
  result (render_regions self subnets regions_envs [] s) = Ok pipelines →
  Dict.get region regions_envs = Some envs_of_region →
  ∃ wrapper blocks p,
    result (render_wrapper self region s) = Ok wrapper
    ∧ Forall2 (λ env_prev block,
                 rendered_block self subnets region env_prev = Ok block)
        (chained None (available_envs subnets region envs_of_region)) blocks
    ∧ Dict.get region pipelines = Some p
    ∧ length blocks = length (available_envs subnets region envs_of_region)
    ∧ length (stages p)
      = (length (stages wrapper) + sum_list (length <$> blocks))%nat
    ∧ stages p ≡ₚ stages wrapper ++ concat blocks.
Proof.
  intros Hres Hrun Hget.
  destruct (assembled_region _ _ _ _ _ _ _ Hres Hrun Hget)
    as (wrapper & blocks & p & Hw & Hb & Hp & ->).
  exists wrapper, blocks, (extend wrapper (concat blocks)).
  split_and!; [done|done|done| | |done].
  - apply Forall2_length in Hb. by rewrite <-Hb, length_chained.
  - simpl. by rewrite length_app, length_concat_sum.
Qed.

(** ** Chaining (lines 159-178) *)

Lemma omap_prefix {A B} (f : A → option B) (l1 l2 : list A) :
  l1 `prefix_of` l2 → omap f l1 `prefix_of` omap f l2.
Proof. intros [k ->]. rewrite omap_app. by eexists. Qed.

Lemma construct_calls_region_events subnets region previous_env envs_of_region :
  construct_calls (region_events subnets region previous_env envs_of_region)
  = (λ ep, (ep.1, ep.2, region))
      <$> chained previous_env (available_envs subnets region envs_of_region).
Proof.
  unfold construct_calls. revert previous_env.
  induction envs_of_region as [|env rest IH]; intros previous_env; [done|].
  rewrite available_envs_cons. cbn [region_events].
  destruct (available subnets region env); csimpl; by rewrite IH.
Qed.

Lemma chained_lookup previous_env l i env prev :
  chained previous_env l !! i = Some (env, prev)
  ↔ l !! i = Some env
    ∧ prev = match i with O => previous_env | S j => l !! j end.
Proof.
  revert previous_env i. induction l as [|e l IH]; intros previous_env i.
  - simpl. rewrite !lookup_nil. by split; [|intros []].
  - destruct i as [|i]; simpl.
    + split; [by intros [= -> ->]|by intros [[= ->] ->]].
    + rewrite IH. destruct i as [|i]; simpl; [|done].
      split; intros [? ->]; split; try done.
Qed.

(** C4: in every region, the blocks are rendered for the available
    environments in order, each with the available environment just before
    it as [previous_env] and the first with none; the blocks rendered
    before an error are the first ones of that list. A skipped environment
    is never a predecessor. *)
Theorem chained_to_preceding_available (self : SpinnakerPipeline)
    (subnets : gmap string (gmap string Subnet)) (region : string)
    (envs_of_region : list string) (wrapper : Pipeline) (s : Remote) :
  construct_calls
    (trace (render_envs self subnets region envs_of_region None wrapper s))
  `prefix_of`
    ((λ ep, (ep.1, ep.2, region))
       <$> chained None (available_envs subnets region envs_of_region))
  ∧ (is_Ok (result (render_envs self subnets region envs_of_region None
                      wrapper s)) →
     construct_calls
       (trace (render_envs self subnets region envs_of_region None wrapper s))
     = (λ ep, (ep.1, ep.2, region))
         <$> chained None (available_envs subnets region envs_of_region))
  ∧ (∀ i env previous_env,
       chained None (available_envs subnets region envs_of_region) !! i
       = Some (env, previous_env)
       ↔ available_envs subnets region envs_of_region !! i = Some env
         ∧ previous_env
           = match i with
             | O => None
             | S j => available_envs subnets region envs_of_region !! j
             end)
  ∧ (∀ env previous r,
       (env, Some previous, r)
       ∈ construct_calls
           (trace (render_envs self subnets region envs_of_region None
                     wrapper s)) →
       previous ∈ envs_of_region ∧ available subnets region previous = true).
Proof.
  destruct (render_envs_run self subnets region envs_of_region None wrapper s)
    as (t & Hrun & Hpre & Hok).
  rewrite Hrun in Hok |- *. unfold trace. cbn [snd].
  assert (construct_calls t `prefix_of`
            (λ ep, (ep.1, ep.2, region))
              <$> chained None (available_envs subnets region envs_of_region))
    as Hcalls.
  { rewrite <-construct_calls_region_events. by apply omap_prefix. }
  split_and!; [done| |apply chained_lookup|].
  - intros H. by rewrite (Hok H), construct_calls_region_events.
  - intros env previous r Hin.
    destruct Hcalls as [k Hk].
    assert ((env, Some previous, r)
            ∈ (λ ep, (ep.1, ep.2, region))
                <$> chained None
                      (available_envs subnets region envs_of_region)) as Hin'.
    { rewrite Hk. apply elem_of_app. by left. }
    apply list_elem_of_fmap in Hin' as ([e o] & [= <- <- ->] & Hin').
    apply list_elem_of_lookup in Hin' as [i Hi].
    apply chained_lookup in Hi as [_ Hprev].
    destruct i as [|j]; [done|]. symmetry in Hprev.
    apply list_elem_of_lookup_2 in Hprev.
    apply list_elem_of_filter in Hprev as [Hav ?]. split; [done|].
    by destruct (available subnets region previous).
Qed.

(** ** Publishing (lines 48-76) *)

Lemma post_pipeline_run self pipeline s :
  post_pipeline self pipeline s
  = match requests_post pipelines_url (to_json pipeline) s with
    | (Throws w, s') =>
        (Raise (ExternalError w), s', [Post pipelines_url (to_json pipeline)])
    | (Returns resp, s') =>
        if ok resp then
          match pipeline_name (to_json pipeline) with
          | Returns name =>
              (Ok tt, s', [Post pipelines_url (to_json pipeline);
                           Info (SuccessfullyCreated name)])
          | Throws w =>
              (Raise (ExternalError w), s',
               [Post pipelines_url (to_json pipeline)])
          end
        else
          match json resp with
          | Returns payload =>
              (Raise (SpinnakerPipelineCreationFailed
                        (failure_message (app_name self) payload)), s',
               [Post pipelines_url (to_json pipeline)])
          | Throws w =>
              (Raise (ExternalError w), s',
               [Post pipelines_url (to_json pipeline)])
          end
    end.
Proof.
  unfold post_pipeline, bind, call_remote, lift, raise, emit.
  destruct (requests_post _ _ s) as [[resp|w] s']; simpl; [|done].
  destruct (ok resp); simpl.
  - by destruct (pipeline_name _).
  - by destruct (json resp).
Qed.

Lemma ok_status resp :
  ok resp = false ↔ (400 ≤ status_code resp < 600)%Z.
Proof. unfold ok. rewrite negb_false_iff, andb_true_iff. lia. Qed.

Lemma append_cons c (a b : string) : String c a +:+ b = String c (a +:+ b).
Proof. done. Qed.

Lemma append_empty_l (a : string) : EmptyString +:+ a = a.
Proof. done. Qed.

Lemma append_empty_r (a : string) : a +:+ EmptyString = a.
Proof. induction a as [|c a IH]; [done|]. by rewrite append_cons, IH. Qed.

Lemma append_assoc (a b c : string) : (a +:+ b) +:+ c = a +:+ b +:+ c.
Proof. induction a as [|x a IH]; [done|]. by rewrite !append_cons, IH. Qed.

Lemma prefix_append (p s : string) : String.prefix p (p +:+ s) = true.
Proof.
  induction p as [|c p IH]; [by destruct s|].
  rewrite append_cons. simpl.
  destruct (Ascii.ascii_dec c c); [done|congruence].
Qed.

Lemma is_substring_here (p s : string) :
  String.prefix p s = true → is_substring p s = true.
Proof. destruct s; simpl; intros ->; done. Qed.

Lemma is_substring_app (a p b : string) :
  is_substring p (a +:+ p +:+ b) = true.
Proof.
  induction a as [|c a IH].
  - rewrite append_empty_l. apply is_substring_here, prefix_append.
  - rewrite append_cons. cbn [is_substring]. rewrite IH. apply orb_true_r.
Qed.

Lemma prefix_split (p s : string) :
  String.prefix p s = true → ∃ b, s = p +:+ b.
Proof.
  revert s. induction p as [|c p IH]; intros s; [by exists s|].
  destruct s as [|c' s]; simpl; [done|].
  destruct (Ascii.ascii_dec c c') as [<-|]; [|done].
  intros [b ->]%IH. by exists b.
Qed.

Lemma is_substring_unfold (p s : string) :
  is_substring p s
  = String.prefix p s
    || match s with
       | EmptyString => false
       | String _ s' => is_substring p s'
       end.
Proof. by destruct s. Qed.

(** [is_substring] is the occurrence test. *)
Lemma is_substring_spec (p s : string) :
  is_substring p s = true ↔ ∃ a b, s = a +:+ p +:+ b.
Proof.
  split; [|intros (a & b & ->); apply is_substring_app].
  induction s as [|c s IH]; rewrite is_substring_unfold, orb_true_iff.
  - intros [Hp|?]; [|done]. apply prefix_split in Hp as [b Hb].
    by exists EmptyString, b.
  - intros [Hp|Hs].
    + apply prefix_split in Hp as [b Hb]. by exists EmptyString, b.
    + apply IH in Hs as (a & b & ->). by exists (String c a), b.
Qed.

Lemma failure_message_carries app payload :
  is_substring app (failure_message app payload) = true
  ∧ is_substring payload (failure_message app payload) = true.
Proof.
  unfold failure_message. split.
  - apply is_substring_app.
  - pose proof (is_substring_app
                  ("Failed to create pipeline for " +:+ app +:+ ": ")
                  payload EmptyString) as H.
    by rewrite append_empty_r, !append_assoc in H.
Qed.

(** C6, as the code has it: for a pipeline whose JSON holds a name, and a
    response whose body decodes when it is an error response,
    [post_pipeline] raises [SpinnakerPipelineCreationFailed] if and only if
    the response is an error response (status 400 to 599, what
    [Response.ok] tests), and it returns if and only if the response is not
    one: for every 2xx response it returns without error. *)
Theorem post_pipeline_raises_iff_error_status (self : SpinnakerPipeline)
    (pipeline : string + Pipeline) (s s' : Remote) (resp : Response) :
  requests_post pipelines_url (to_json pipeline) s = (Returns resp, s') →
  (∃ name, pipeline_name (to_json pipeline) = Returns name) →
  ((400 ≤ status_code resp < 600)%Z → ∃ payload, json resp = Returns payload) →
  ((∃ msg, result (post_pipeline self pipeline s)
           = Raise (SpinnakerPipelineCreationFailed msg))
   ↔ (400 ≤ status_code resp < 600)%Z)
  ∧ (result (post_pipeline self pipeline s) = Ok tt
     ↔ ¬ (400 ≤ status_code resp < 600)%Z)
  ∧ ((200 ≤ status_code resp < 300)%Z →
     result (post_pipeline self pipeline s) = Ok tt).
Proof.
  intros Hpost [name Hname] Hjson. rewrite post_pipeline_run, Hpost, Hname.
  rewrite <-ok_status in Hjson |- *. unfold result.
  destruct (ok resp) eqn:Hok; cbn [fst].
  - split_and!; [|done|done]. split; [by intros [msg ?]|done].
  - destruct (Hjson eq_refl) as [payload ->]. cbn [fst].
    split_and!.
    + split; [done|]. intros _. by eexists.
    + split; [done|]. by intros [].
    + intros H2xx. apply ok_status in Hok. lia.
Qed.

(** C7, as the code has it: when publishing receives an error response
    whose body decodes, the error raised is
    [SpinnakerPipelineCreationFailed] with the message "Failed to create
    pipeline for <application>: <payload>": it carries the application name
    and the decoded payload, and nothing else of the run. *)
Theorem creation_failure_message (self : SpinnakerPipeline)
    (pipeline : string + Pipeline) (s s' : Remote) (resp : Response)
    (payload : string) :
  requests_post pipelines_url (to_json pipeline) s = (Returns resp, s') →
  ok resp = false →
  json resp = Returns payload →
  result (post_pipeline self pipeline s)
  = Raise (SpinnakerPipelineCreationFailed
             (failure_message (app_name self) payload))
  ∧ carries (SpinnakerPipelineCreationFailed
               (failure_message (app_name self) payload)) (app_name self)
    = true
  ∧ carries (SpinnakerPipelineCreationFailed
               (failure_message (app_name self) payload)) payload
    = true.
Proof.
  intros Hpost Hok Hjson. rewrite post_pipeline_run, Hpost, Hok, Hjson.
  split; [done|]. apply failure_message_carries.
Qed.

(** ** The whole run (lines 131-187) *)

Lemma create_pipeline_run self s :
  create_pipeline self s
  = match clean_pipelines (app_name self) (settings self) s with
    | (Raise e, s1) => (Raise e, s1, [CleanPipelines (app_name self)])
    | (Ok _, s1) =>
        match resolve_regions_envs self (environments self) [] with
        | Raise e => (Raise e, s1, [CleanPipelines (app_name self)])
        | Ok regions_envs =>
            match get_subnets with
            | Raise e => (Raise e, s1, preamble self regions_envs)
            | Ok subnets =>
                match render_regions self subnets regions_envs [] s1 with
                | (Raise e, s2, t) =>
                    (Raise e, s2, preamble self regions_envs ++ t)
                | (Ok pipelines, s2, t) =>
                    match post_pipelines self pipelines s2 with
                    | (Raise e, s3, t') =>
                        (Raise e, s3, preamble self regions_envs ++ t ++ t')
                    | (Ok _, s3, t') =>
                        (Ok true, s3, preamble self regions_envs ++ t ++ t')
                    end
                end
            end
        end
    end.
Proof.
  unfold create_pipeline, bind at 1, call_remote.
  destruct (clean_pipelines _ _ s) as [[[]|e] s1]; [|done].
  unfold bind at 1, lift.
  destruct (resolve_regions_envs _ _ _) as [regions_envs|e]; [|done].
  unfold bind at 1, emit. unfold bind at 1, call.
  destruct get_subnets as [subnets|e]; [|done].
  unfold bind at 1.
  destruct (render_regions _ _ _ _ s1) as [[[pipelines|e] s2] t]; [|done].
  unfold bind at 1.
  destruct (post_pipelines _ _ s2) as [[[[]|e] s3] t']; [|done].
  unfold ret. simpl. by rewrite app_nil_r.
Qed.

Lemma post_pipelines_cons self region p rest s :
  post_pipelines self ((region, p) :: rest) s
  = match renumerate_stages p with
    | Raise e => (Raise e, s, [])
    | Ok p' =>
        match post_pipeline self (inr p') s with
        | (Raise e, s1, t) => (Raise e, s1, t)
        | (Ok _, s1, t) =>
            match post_pipelines self rest s1 with
            | (r, s2, t') => (r, s2, t ++ t')
            end
        end
    end.
Proof.
  cbn [post_pipelines]. unfold bind at 1, lift.
  destruct (renumerate_stages p) as [p'|e]; [|done]. cbn [app].
  unfold bind at 1.
  destruct (post_pipeline _ _ s) as [[[[]|e] s1] t]; [|done].
  by destruct (post_pipelines _ _ s1) as [[r s2] t'].
Qed.

(** Publishing a list of pipelines is publishing a first part and, when
    that returns, the rest. *)
Lemma post_pipelines_app self items1 items2 s :
  post_pipelines self (items1 ++ items2) s
  = match post_pipelines self items1 s with
    | (Raise e, s1, t) => (Raise e, s1, t)
    | (Ok _, s1, t) =>
        match post_pipelines self items2 s1 with
        | (r, s2, t') => (r, s2, t ++ t')
        end
    end.
Proof.
  revert s. induction items1 as [|[region p] items1 IH]; intros s.
  - simpl. by destruct (post_pipelines _ _ s) as [[??]?].
  - rewrite <-app_comm_cons, !post_pipelines_cons.
    destruct (renumerate_stages p) as [p'|e]; [|done].
    destruct (post_pipeline _ _ s) as [[[[]|e] s1] t]; [|done].
    rewrite IH.
    destruct (post_pipelines _ items1 s1) as [[[[]|e] s2] t']; [|done].
    destruct (post_pipelines _ items2 s2) as [[r s3] t''].
    by rewrite app_assoc.
Qed.

(** A publishing loop that returns has sent every pipeline, renumbered, in
    the order of the dictionary, and each was accepted. *)
Lemma post_pipelines_Ok self items s s' t :
  post_pipelines self items s = (Ok tt, s', t) →
  Forall2 (λ item data, ∃ p', renumerate_stages item.2 = Ok p'
                              ∧ data = json_dumps p') items (posts t).
Proof.
  revert s t. induction items as [|[region p] items IH]; intros s t.
  - simpl. unfold ret. intros [= <- <-]. constructor.
  - rewrite post_pipelines_cons.
    destruct (renumerate_stages p) as [p'|e] eqn:Hp; [|done].
    rewrite post_pipeline_run.
    destruct (requests_post _ _ s) as [[resp|w] s1]; [|done].
    destruct (ok resp); [|by destruct (json resp)].
    destruct (pipeline_name _) as [name|w]; [|done].
    destruct (post_pipelines _ items s1) as [[r s2] t'] eqn:Hrest.
    intros [= -> -> <-]. unfold posts. csimpl. constructor; [by eauto|].
    by eapply IH.
Qed.

(** ** The root volume limit (lines 96-100) *)

Lemma render_wrapper_over_50 self region s :
  (50 < root_volume_size (image (pipeline (settings self))))%Z →
  render_wrapper self region s
  = (Raise (SpinnakerPipelineCreationFailed
              (root_volume_size_message
                 (root_volume_size (image (pipeline (settings self)))))),
     s, []).
Proof.
  intros H. unfold render_wrapper.
  by rewrite (proj2 (Z.ltb_lt _ _) H).
Qed.

Lemma render_regions_over_50 self subnets items pipelines s :
  (50 < root_volume_size (image (pipeline (settings self))))%Z →
  render_regions self subnets items pipelines s
  = match items with
    | [] => (Ok pipelines, s, [])
    | _ :: _ =>
        (Raise (SpinnakerPipelineCreationFailed
                  (root_volume_size_message
                     (root_volume_size (image (pipeline (settings self)))))),
         s, [])
    end.
Proof.
  intros H. destruct items as [|[region envs_of_region] rest]; [done|].
  cbn [render_regions]. unfold bind at 1.
  by rewrite render_wrapper_over_50.
Qed.

(** C10: when the configured [root_volume_size] exceeds 50, [render_wrapper]
    raises [SpinnakerPipelineCreationFailed] at once, with no AMI lookup and
    no template rendering; so the run assembles no pipeline, sends none, and
    raises this error as soon as the resolved mapping has a region to
    render. *)
Theorem root_volume_size_over_50 (self : SpinnakerPipeline) :
  (50 < root_volume_size (image (pipeline (settings self))))%Z →
  (∀ region s,
     render_wrapper self region s
     = (Raise (SpinnakerPipelineCreationFailed
                 (root_volume_size_message
                    (root_volume_size (image (pipeline (settings self)))))),
        s, []))
  ∧ (∀ subnets regions_envs s pipelines,
       result (render_regions self subnets regions_envs [] s) = Ok pipelines →
       regions_envs = [] ∧ pipelines = [])
  ∧ (∀ s, posts (trace (create_pipeline self s)) = []
          ∧ Forall before_rendering (trace (create_pipeline self s)))
  ∧ (∀ s s1 regions_envs subnets,
       clean_pipelines (app_name self) (settings self) s = (Ok tt, s1) →
       resolve_regions_envs self (environments self) [] = Ok regions_envs →
       regions_envs ≠ [] →
       get_subnets = Ok subnets →
       result (create_pipeline self s)
       = Raise (SpinnakerPipelineCreationFailed
                  (root_volume_size_message
                     (root_volume_size (image (pipeline (settings self))))))).
Proof.
  intros H. split_and!.
  - intros region s. by apply render_wrapper_over_50.
  - intros subnets regions_envs s pipelines.
    rewrite render_regions_over_50 by done.
    destruct regions_envs; [by intros [= <-]|done].
  - intros s. rewrite create_pipeline_run.
    destruct (clean_pipelines _ _ s) as [[[]|e] s1];
      [|by split; [|repeat constructor]].
    destruct (resolve_regions_envs _ _ _) as [regions_envs|e];
      [|by split; [|repeat constructor]].
    destruct get_subnets as [subnets|e];
      [|by split; [|repeat constructor]].
    rewrite render_regions_over_50 by done.
    destruct regions_envs as [|item regions_envs];
      by split; [|repeat constructor].
  - intros s s1 regions_envs subnets Hclean Hres Hne Hsub.
    rewrite create_pipeline_run, Hclean, Hres, Hsub.
    rewrite render_regions_over_50 by done. by destruct regions_envs.
Qed.

(** ** Clean, then create (lines 139-185) *)

Lemma posts_app t1 t2 : posts (t1 ++ t2) = posts t1 ++ posts t2.
Proof. apply omap_app. Qed.

Lemma posts_region_events subnets region previous_env envs_of_region :
  posts (region_events subnets region previous_env envs_of_region) = [].
Proof.
  revert previous_env.
  induction envs_of_region as [|env rest IH]; intros previous_env; [done|].
  cbn [region_events]. destruct (available subnets region env); apply IH.
Qed.

Lemma posts_render_wrapper self region s :
  posts (trace (render_wrapper self region s)) = [].
Proof.
  unfold render_wrapper. case_match; [done|].
  unfold bind, call, lift.
  destruct (ami_lookup _ _); [|done]. by destruct (get_template _ _).
Qed.

Lemma posts_render_envs self subnets region envs_of_region previous_env p s :
  posts (trace (render_envs self subnets region envs_of_region previous_env
                  p s)) = [].
Proof.
  destruct (render_envs_run self subnets region envs_of_region previous_env p s)
    as (t & -> & Hpre & _).
  apply (omap_prefix (λ ev, match ev with Post _ data => Some data
                            | _ => None end)) in Hpre.
  fold (posts t) in Hpre.
  fold (posts (region_events subnets region previous_env envs_of_region))
    in Hpre.
  rewrite posts_region_events in Hpre. by apply prefix_nil_inv in Hpre.
Qed.

(** Rendering leaves the remote state alone and sends nothing. *)
Lemma render_regions_quiet self subnets items pipelines s :
  ∃ r t, render_regions self subnets items pipelines s = (r, s, t)
         ∧ posts t = [].
Proof.
  revert pipelines.
  induction items as [|[region envs_of_region] rest IH]; intros pipelines.
  { by exists (Ok pipelines), []. }
  cbn [render_regions]. unfold bind at 1.
  pose proof (posts_render_wrapper self region s) as Hw.
  pose proof (render_wrapper_pure self region s s) as Hpure.
  destruct (render_wrapper self region s) as [[rw sw] tw].
  unfold result, trace in Hw, Hpure. cbn [fst snd] in Hw, Hpure.
  injection Hpure as ->. destruct rw as [wrapper|e]; [|by eauto].
  unfold bind at 1.
  pose proof (posts_render_envs self subnets region envs_of_region None
                wrapper s) as He.
  destruct (render_envs_run self subnets region envs_of_region None wrapper s)
    as (t & Hrun & _).
  rewrite Hrun in He |- *. unfold trace in He. cbn [snd] in He.
  destruct (mapM _ _) as [blocks|e]; cbn [mbind Result_bind].
  - destruct (IH (Dict.set region (extend wrapper (concat blocks)) pipelines))
      as (r & t' & -> & Hp).
    eexists _, _. split; [done|]. by rewrite !posts_app, Hw, He, Hp.
  - eexists _, _. split; [done|]. by rewrite !posts_app, Hw, He.
Qed.

Lemma assemble_item_state self subnets s s' item :
  assemble_item self subnets s item = assemble_item self subnets s' item.
Proof.
  unfold assemble_item, assemble.
  by rewrite (render_wrapper_pure self item.1 s s').
Qed.

(** The pipelines a run assembles do not depend on the remote state. *)
Lemma render_regions_state self subnets regions_envs s s' :
  resolve_regions_envs self (environments self) [] = Ok regions_envs →
  result (render_regions self subnets regions_envs [] s)
  = result (render_regions self subnets regions_envs [] s').
Proof.
  intros Hres.
  assert (NoDup (Dict.keys ([] : Dict.t Pipeline) ++ Dict.keys regions_envs))
    as Hnd.
  { simpl. by eapply resolved_NoDup. }
  destruct (render_regions_run self subnets regions_envs [] s Hnd) as (t & ->).
  destruct (render_regions_run self subnets regions_envs [] s' Hnd)
    as (t' & ->).
  unfold result. cbn [fst]. f_equal.
  clear. induction regions_envs as [|item rest IH]; [done|].
  by rewrite !mapM_Result_cons, IH, (assemble_item_state _ _ s s').
Qed.

Lemma post_pipelines_generated generated_pipelines self items s s' t :
  best_effort_replacement generated_pipelines self →
  post_pipelines self items s = (Ok tt, s', t) →
  generated_pipelines s' = generated_pipelines s ++ posts t.
Proof.
  intros [_ Hpost]. revert s t.
  induction items as [|[region p] items IH]; intros s t.
  - simpl. unfold ret. intros [= <- <-]. by rewrite app_nil_r.
  - rewrite post_pipelines_cons.
    destruct (renumerate_stages p) as [p'|e] eqn:Hp; [|done].
    rewrite post_pipeline_run.
    destruct (requests_post _ _ s) as [[resp|w] s1] eqn:Hreq; [|done].
    apply Hpost in Hreq.
    destruct (ok resp); [|by destruct (json resp)].
    destruct (pipeline_name _) as [name|w]; [|done].
    destruct (post_pipelines _ items s1) as [[r s2] t'] eqn:Hrest.
    intros [= -> -> <-]. rewrite (IH _ _ Hrest), Hreq.
    unfold posts. csimpl. by rewrite <-app_assoc.
Qed.

(** What a run that returns has done. *)
Lemma create_pipeline_Ok self s s' t :
  create_pipeline self s = (Ok true, s', t) →
  ∃ s1 regions_envs subnets pipelines t_render t_post,
    clean_pipelines (app_name self) (settings self) s = (Ok tt, s1)
    ∧ resolve_regions_envs self (environments self) [] = Ok regions_envs
    ∧ get_subnets = Ok subnets
    ∧ render_regions self subnets regions_envs [] s1
      = (Ok pipelines, s1, t_render)
    ∧ post_pipelines self pipelines s1 = (Ok tt, s', t_post)
    ∧ t = preamble self regions_envs ++ t_render ++ t_post
    ∧ posts t = posts t_post.
Proof.
  rewrite create_pipeline_run.
  destruct (clean_pipelines _ _ s) as [[[]|e] s1] eqn:Hclean; [|done].
  destruct (resolve_regions_envs _ _ _) as [regions_envs|e] eqn:Hres; [|done].
  destruct get_subnets as [subnets|e] eqn:Hsub; [|done].
  destruct (render_regions_quiet self subnets regions_envs [] s1)
    as (r & t_render & Hrender & Hp).
  rewrite Hrender. destruct r as [pipelines|e]; [|done].
  destruct (post_pipelines _ _ s1) as [[[[]|e] s3] t_post] eqn:Hpost; [|done].
  intros [= <- <-].
  exists s1, regions_envs, subnets, pipelines, t_render, t_post.
  split_and!; try done.
  change (posts (t_render ++ t_post) = posts t_post).
  by rewrite posts_app, Hp.
Qed.

Lemma create_pipeline_trace_head self s :
  ∃ t, trace (create_pipeline self s) = CleanPipelines (app_name self) :: t.
Proof.
  rewrite create_pipeline_run.
  destruct (clean_pipelines _ _ s) as [[[]|e] s1]; [|by eexists].
  destruct (resolve_regions_envs _ _ _) as [regions_envs|e]; [|by eexists].
  destruct get_subnets as [subnets|e]; [|by eexists].
  destruct (render_regions _ _ _ _ s1) as [[[pipelines|e] s2] t];
    [|by eexists].
  destruct (post_pipelines _ _ s2) as [[[[]|e] s3] t']; by eexists.
Qed.

Lemma Forall2_functional {A B} (R : A → B → Prop) l k1 k2 :
  (∀ x y1 y2, R x y1 → R x y2 → y1 = y2) →
  Forall2 R l k1 → Forall2 R l k2 → k1 = k2.
Proof.
  intros HR H1. revert k2. induction H1 as [|x y l k Hxy _ IH]; intros k2.
  - by inversion 1.
  - inversion 1 as [|? y' ? k' Hxy' Hk']; subst. f_equal; [|by apply IH].
    by eapply HR.
Qed.

(** C5, as the code has it: every run starts with the clean step: it is
    the first event of the trace, so it comes before every creation
    request, and nothing is sent when it raises.  The run itself deletes
    nothing and checks nothing of what the clean step did.  On a remote that
    behaves as the specification's best-effort replacement controller
    ([best_effort_replacement]), after two runs in succession that return
    the generated pipelines present are the ones the second clean step left
    behind, followed by the ones the second run created, one for each
    region of the resolved mapping: exactly one for each region when that
    clean step left none. *)
Theorem clean_before_create (self : SpinnakerPipeline) (s : Remote) :
  (∃ t, trace (create_pipeline self s) = CleanPipelines (app_name self) :: t)
  ∧ (∀ t1 url data t2,
       trace (create_pipeline self s) = t1 ++ Post url data :: t2 →
       ∃ t1', t1 = CleanPipelines (app_name self) :: t1')
  ∧ (∀ e s1,
       clean_pipelines (app_name self) (settings self) s = (Raise e, s1) →
       create_pipeline self s
       = (Raise e, s1, [CleanPipelines (app_name self)]))
  ∧ (∀ generated_pipelines s1 t1 s2 t2,
       best_effort_replacement generated_pipelines self →
       create_pipeline self s = (Ok true, s1, t1) →
       create_pipeline self s1 = (Ok true, s2, t2) →
       ∃ regions_envs subnets pipelines s_clean,
         resolve_regions_envs self (environments self) [] = Ok regions_envs
         ∧ NoDup (Dict.keys regions_envs)
         ∧ get_subnets = Ok subnets
         ∧ result (render_regions self subnets regions_envs [] s) = Ok pipelines
         ∧ Dict.keys pipelines = Dict.keys regions_envs
         ∧ clean_pipelines (app_name self) (settings self) s1
           = (Ok tt, s_clean)
         ∧ generated_pipelines s_clean `sublist_of` generated_pipelines s1
         ∧ generated_pipelines s2 = generated_pipelines s_clean ++ posts t2
         ∧ Forall2 (λ item data, ∃ p', renumerate_stages item.2 = Ok p'
                                       ∧ data = json_dumps p')
             pipelines (posts t2)
         ∧ (generated_pipelines s_clean = [] →
            Forall2 (λ item data, ∃ p', renumerate_stages item.2 = Ok p'
                                        ∧ data = json_dumps p')
              pipelines (generated_pipelines s2))).
Proof.
  split_and!.
  - apply create_pipeline_trace_head.
  - intros t1 url data t2 Ht.
    destruct (create_pipeline_trace_head self s) as [t Hhead].
    rewrite Hhead in Ht. destruct t1 as [|ev t1]; [done|].
    injection Ht as <- _. by eexists.
  - intros e s1 Hclean. by rewrite create_pipeline_run, Hclean.
  - intros gp s1 t1 s2 t2 Hgp Hrun1 Hrun2.
    apply create_pipeline_Ok in Hrun1
      as (s1' & regions_envs & subnets & pipelines & tr1 & tp1
          & Hclean1 & Hres & Hsub & Hrender1 & Hpost1 & _ & Hposts1).
    apply create_pipeline_Ok in Hrun2
      as (s2' & regions_envs2 & subnets2 & pipelines2 & tr2 & tp2
          & Hclean2 & Hres2 & Hsub2 & Hrender2 & Hpost2 & _ & Hposts2).
    rewrite Hres in Hres2. injection Hres2 as <-.
    rewrite Hsub in Hsub2. injection Hsub2 as <-.
    assert (pipelines2 = pipelines) as ->.
    { pose proof (render_regions_state self subnets regions_envs s2' s1' Hres)
        as Hst.
      rewrite Hrender1, Hrender2 in Hst. by injection Hst. }
    pose proof (proj1 Hgp _ _ Hclean2) as Hleft.
    pose proof (post_pipelines_generated gp _ _ _ _ _ Hgp Hpost2) as Hs2.
    pose proof (post_pipelines_Ok _ _ _ _ _ Hpost2) as HF2.
    rewrite <-Hposts2 in Hs2, HF2.
    exists regions_envs, subnets, pipelines, s2'. split_and!; try done.
    + by eapply resolved_NoDup.
    + rewrite (render_regions_state self subnets regions_envs s s1' Hres).
      by rewrite Hrender1.
    + destruct (render_regions_run self subnets regions_envs [] s1')
        as (t & Ht).
      { simpl. by eapply resolved_NoDup. }
      rewrite Ht in Hrender1.
      destruct (mapM _ _) as [ps|e] eqn:Hps; [|done].
      injection Hrender1 as <- _. by eapply assemble_item_keys.
    + intros Hnone. by rewrite Hs2, Hnone.
Qed.

(** ** Unavailable environments (lines 160-165) *)

Lemma available_envs_skip subnets region before env after :
  subnets_lookup subnets env region = None →
  available_envs subnets region (before ++ env :: after)
  = available_envs subnets region (before ++ after).
Proof.
  intros Hnone. unfold available_envs.
  rewrite !filter_app, filter_cons.
  assert (available subnets region env = false) as Hav
    by (unfold available; by rewrite Hnone).
  case_decide as Hd; [|done]. by rewrite Hav in Hd.
Qed.

Lemma region_events_skip subnets region previous_env before env after :
  subnets_lookup subnets env region = None →
  Info (NotAvailable env region)
  ∈ region_events subnets region previous_env (before ++ env :: after).
Proof.
  intros Hnone. revert previous_env.
  induction before as [|e before IH]; intros previous_env.
  - cbn [app region_events]. unfold available. rewrite Hnone. by left.
  - cbn [app region_events]. destruct (available subnets region e);
      right; apply IH.
Qed.

(** A rendering loop that returns has left the events of every region. *)
Lemma render_regions_events self subnets items pipelines s pipelines' s' t
    region envs_of_region ev :
  render_regions self subnets items pipelines s = (Ok pipelines', s', t) →
  (region, envs_of_region) ∈ items →
  ev ∈ region_events subnets region None envs_of_region →
  ev ∈ t.
Proof.
  revert pipelines t. induction items as [|[r es] rest IH]; intros pipelines t.
  { by intros _ []%elem_of_nil. }
  cbn [render_regions]. unfold bind at 1.
  pose proof (render_wrapper_pure self r s s) as Hpure.
  destruct (render_wrapper self r s) as [[rw sw] tw].
  unfold result, trace in Hpure. cbn [fst snd] in Hpure.
  injection Hpure as ->. destruct rw as [wrapper|e]; [|done].
  unfold bind at 1.
  destruct (render_envs_run self subnets r es None wrapper s)
    as (te & Hrun & _ & Hok).
  rewrite Hrun in Hok |- *.
  destruct (mapM _ _) as [blocks|e]; cbn [mbind Result_bind]; [|done].
  specialize (Hok I).
  destruct (render_regions _ _ rest _ s) as [[r' s''] t'] eqn:Hrest.
  intros [= -> -> <-] [[= <- <-]|Hin]%elem_of_cons Hev.
  - rewrite !elem_of_app. right. left. by rewrite Hok.
  - rewrite !elem_of_app. right. right. by eapply IH.
Qed.

Lemma render_and_post_run self subnets regions_envs s :
  ∃ r t,
    render_regions self subnets regions_envs [] s = (r, s, t)
    ∧ posts t = []
    ∧ render_and_post self subnets regions_envs s
      = match r with
        | Ok pipelines =>
            (result (post_pipelines self pipelines s),
             final (post_pipelines self pipelines s),
             t ++ trace (post_pipelines self pipelines s))
        | Raise e => (Raise e, s, t)
        end.
Proof.
  destruct (render_regions_quiet self subnets regions_envs [] s)
    as (r & t & Hrun & Hp).
  exists r, t. split_and!; [done|done|].
  unfold render_and_post. by rewrite bind_run, Hrun.
Qed.

Lemma get_elem_of {V} (k : string) (d : Dict.t V) (v : V) :
  Dict.get k d = Some v → (k, v) ∈ d.
Proof.
  induction d as [|[k' v'] d IH]; [done|]. cbn [Dict.get].
  destruct (String.eqb_spec k' k) as [->|].
  - intros [= ->]. by left.
  - intros H. right. by apply IH.
Qed.

Lemma fst_chained previous_env l : (chained previous_env l).*1 = l.
Proof.
  revert previous_env. induction l as [|e l IH]; intros o; [done|].
  csimpl. by rewrite IH.
Qed.

(** C8: an environment with no subnet entry for the region is skipped: the
    loop leaves the record "<env> is not available for <region>." and goes
    on with the remaining environments, the pipeline and the predecessor
    unchanged.  Nothing is raised for it: the run assembles and sends the
    same pipelines, with the same result, as if the environment were not
    listed for the region.  The other environments of the region are still
    rendered, each chained to the available one before it, and their blocks
    extend the wrapper; and a run that returns has left the record and has
    sent the pipeline of the region, made of the wrapper and the blocks of
    its available environments. *)
Theorem unavailable_env_skipped (self : SpinnakerPipeline)
    (subnets : gmap string (gmap string Subnet)) (region env : string)
    (s : Remote) :
  subnets_lookup subnets env region = None →
  (∀ rest previous_env p,
     render_envs self subnets region (env :: rest) previous_env p s
     = (result (render_envs self subnets region rest previous_env p s),
        final (render_envs self subnets region rest previous_env p s),
        Info (NotAvailable env region)
        :: trace (render_envs self subnets region rest previous_env p s)))
  ∧ (∀ before after items1 items2,
       NoDup (Dict.keys (items1 ++ (region, before ++ env :: after) :: items2)) →
       result (render_regions self subnets
                 (items1 ++ (region, before ++ env :: after) :: items2) [] s)
       = result (render_regions self subnets
                   (items1 ++ (region, before ++ after) :: items2) [] s)
       ∧ result (render_and_post self subnets
                   (items1 ++ (region, before ++ env :: after) :: items2) s)
         = result (render_and_post self subnets
                     (items1 ++ (region, before ++ after) :: items2) s)
       ∧ final (render_and_post self subnets
                  (items1 ++ (region, before ++ env :: after) :: items2) s)
         = final (render_and_post self subnets
                    (items1 ++ (region, before ++ after) :: items2) s)
       ∧ posts (trace (render_and_post self subnets
                  (items1 ++ (region, before ++ env :: after) :: items2) s))
         = posts (trace (render_and_post self subnets
                    (items1 ++ (region, before ++ after) :: items2) s))
       ∧ (is_Ok (result (render_regions self subnets
                   (items1 ++ (region, before ++ env :: after) :: items2)
                   [] s)) →
          Info (NotAvailable env region)
          ∈ trace (render_regions self subnets
                     (items1 ++ (region, before ++ env :: after) :: items2)
                     [] s)))
  ∧ (∀ before after p,
       ∃ t,
         render_envs self subnets region (before ++ env :: after) None p s
         = (blocks ← mapM (rendered_block self subnets region)
                       (chained None
                          (available_envs subnets region (before ++ after)));
            Ok (extend p (concat blocks)), s, t)
         ∧ (is_Ok (result (render_envs self subnets region
                             (before ++ env :: after) None p s)) →
            Info (NotAvailable env region) ∈ t
            ∧ construct_calls t
              = (λ ep, (ep.1, ep.2, region))
                  <$> chained None
                        (available_envs subnets region (before ++ after))))
  ∧ (∀ s' t regions_envs envs_of_region,
       get_subnets = Ok subnets →
       create_pipeline self s = (Ok true, s', t) →
       resolve_regions_envs self (environments self) [] = Ok regions_envs →
       Dict.get region regions_envs = Some envs_of_region →
       env ∈ envs_of_region →
       Info (NotAvailable env region) ∈ t
       ∧ ∃ wrapper blocks p',
           result (render_wrapper self region s) = Ok wrapper
           ∧ Forall2 (λ env_prev block,
                        rendered_block self subnets region env_prev = Ok block)
               (chained None (available_envs subnets region envs_of_region))
               blocks
           ∧ (env ∉ fst <$> chained None
                              (available_envs subnets region envs_of_region))
           ∧ renumerate_stages (extend wrapper (concat blocks)) = Ok p'
           ∧ json_dumps p' ∈ posts t).
Proof.
  intros Hnone. split_and!.
  - intros rest previous_env p. cbn [render_envs]. rewrite Hnone.
    unfold bind, emit.
    by destruct (render_envs _ _ _ rest _ _ s) as [[r s'] t].
  - intros before after items1 items2 Hnd.
    assert (result (render_regions self subnets
                      (items1 ++ (region, before ++ env :: after) :: items2)
                      [] s)
            = result (render_regions self subnets
                        (items1 ++ (region, before ++ after) :: items2) [] s))
      as Hresult.
    { destruct (render_regions_run self subnets
                  (items1 ++ (region, before ++ env :: after) :: items2) [] s)
        as (t1 & ->); [done|].
      destruct (render_regions_run self subnets
                  (items1 ++ (region, before ++ after) :: items2) [] s)
        as (t2 & ->).
      { unfold Dict.keys in *. by rewrite fmap_app, fmap_cons in *. }
      unfold result. cbn [fst]. f_equal. clear Hnd.
      induction items1 as [|item items1 IH].
      - cbn [app]. rewrite !mapM_Result_cons. f_equal.
        unfold assemble_item, assemble. cbn [fst snd].
        by rewrite available_envs_skip.
      - rewrite <-!app_comm_cons, !mapM_Result_cons. by rewrite IH. }
    split; [done|].
    destruct (render_and_post_run self subnets
                (items1 ++ (region, before ++ env :: after) :: items2) s)
      as (r1 & t1 & Hrun1 & Hp1 & ->).
    destruct (render_and_post_run self subnets
                (items1 ++ (region, before ++ after) :: items2) s)
      as (r2 & t2 & Hrun2 & Hp2 & ->).
    rewrite Hrun1, Hrun2 in Hresult. unfold result in Hresult.
    cbn [fst] in Hresult. subst r2. rewrite Hrun1.
    destruct r1 as [pipelines|e].
    + unfold result, final, trace. cbn [fst snd].
      split_and!; [done|done|by rewrite !posts_app, Hp1, Hp2|].
      intros _. eapply render_regions_events; [done| |].
      * apply elem_of_app. right. by left.
      * by apply region_events_skip.
    + unfold result, final, trace. cbn [fst snd].
      split_and!; [done|done|by rewrite Hp1, Hp2|done].
  - intros before after p.
    destruct (render_envs_run self subnets region (before ++ env :: after)
                None p s) as (t & Hrun & _ & Hok).
    exists t. rewrite (available_envs_skip _ _ _ _ _ Hnone) in Hrun.
    split; [exact Hrun|]. intros HOk. rewrite (Hok HOk).
    split; [by apply region_events_skip|].
    by rewrite construct_calls_region_events, available_envs_skip.
  - intros s' t regions_envs envs_of_region Hsub Hrun Hres Hget Hin.
    apply create_pipeline_Ok in Hrun
      as (s1 & regions_envs' & subnets' & pipelines & tr & tp
          & _ & Hres' & Hsub' & Hrender & Hpost & -> & Hposts).
    rewrite Hres in Hres'. injection Hres' as <-.
    rewrite Hsub in Hsub'. injection Hsub' as <-.
    split.
    + apply list_elem_of_split in Hin as (before & after & ->).
      rewrite !elem_of_app. right. left.
      eapply render_regions_events;
        [exact Hrender|by apply get_elem_of|by apply region_events_skip].
    + destruct (assembled_region self subnets regions_envs s1 pipelines region
                  envs_of_region Hres)
        as (wrapper & blocks & p & Hw & Hblocks & Hp & ->);
        [by rewrite Hrender|done|].
      pose proof (post_pipelines_Ok _ _ _ _ _ Hpost) as HF.
      apply get_elem_of, list_elem_of_lookup in Hp as [i Hi].
      destruct (Forall2_lookup_l _ _ _ _ _ HF Hi)
        as (data & Hdata & p' & Hren & ->).
      exists wrapper, blocks, p'. split_and!; [|done| |done|].
      * by rewrite (render_wrapper_pure self region s s1).
      * rewrite fst_chained. unfold available_envs.
        rewrite list_elem_of_filter. unfold available. rewrite Hnone.
        by intros [[] _].
      * rewrite Hposts. by eapply list_elem_of_lookup_2.
Qed.

(** ** A rejected pipeline (lines 182-187) *)

(** C9, as the code has it: the pipelines are published one region after
    the other, and a failure for one region ends the run with that error.
    The pipelines of the regions before it have been sent and accepted as
    in a run without the failure; after the request of the failing region
    nothing more is sent, whatever regions follow it. *)
Theorem publish_failure_aborts (self : SpinnakerPipeline)
    (before after : Dict.t Pipeline) (region : string) (p : Pipeline)
    (s s1 s2 : Remote) (t1 t2 : list Event) (e : exn) :
  post_pipelines self before s = (Ok tt, s1, t1) →
  post_pipelines self [(region, p)] s1 = (Raise e, s2, t2) →
  post_pipelines self (before ++ (region, p) :: after) s
  = (Raise e, s2, t1 ++ t2)
  ∧ Forall2 (λ item data, ∃ p', renumerate_stages item.2 = Ok p'
                                ∧ data = json_dumps p')
      before (posts t1)
  ∧ (length (posts t2) ≤ 1)%nat.
Proof.
  intros Hbefore Hfail. split_and!.
  - rewrite post_pipelines_app, Hbefore, post_pipelines_cons.
    rewrite post_pipelines_cons in Hfail.
    destruct (renumerate_stages p) as [p'|e']; [|by simplify_eq].
    destruct (post_pipeline _ _ s1) as [[[[]|e'] s1'] t]; [|by simplify_eq].
    cbn [post_pipelines] in Hfail. unfold ret in Hfail. discriminate.
  - by eapply post_pipelines_Ok.
  - rewrite post_pipelines_cons in Hfail.
    destruct (renumerate_stages p) as [p'|e'];
      [|simplify_eq; simpl; lia].
    rewrite post_pipeline_run in Hfail.
    destruct (requests_post _ _ s1) as [[resp|w] s1'];
      [|simplify_eq; simpl; lia].
    destruct (ok resp).
    + destruct (pipeline_name _); [done|simplify_eq; simpl; lia].
    + destruct (json resp); simplify_eq; simpl; lia.
Qed.

(** * Further properties of [create_pipeline.py] *)

(** The requests of a trace, with the address they were sent to. *)
Definition requests (t : list Event) : list (string * string) :=
  omap (λ ev, match ev with Post url data => Some (url, data) | _ => None end)
    t.

(** The events of the publishing loop. *)
Definition publishing (ev : Event) : Prop :=
  match ev with
  | Post _ _ | Info (SuccessfullyCreated _) => True
  | _ => False
  end.

(** The bodies of the pipelines that can be renumbered, in the order of the
    dictionary. *)
Definition bodies (items : Dict.t Pipeline) : list string :=
  omap (λ item, match renumerate_stages item.2 with
                | Ok p' => Some (json_dumps p')
                | Raise _ => None
                end) items.

(** [self.base] when it is set, the configured base otherwise. *)
Definition effective_base (self : SpinnakerPipeline) : string :=
  if String.eqb (self_base self) EmptyString
  then base (pipeline (settings self))
  else self_base self.

(** ** A missing or empty configuration (lines 139-151) *)

Lemma resolve_regions_envs_missing self before env after d :
  (∀ e, e ∈ before → is_Some (envs (settings self) !! e)) →
  envs (settings self) !! env = None →
  resolve_regions_envs self (before ++ env :: after) d = Raise (KeyError env).
Proof.
  intros Hbefore Hnone. revert d.
  induction before as [|e before IH]; intros d.
  - simpl. unfold getitem. by rewrite Hnone.
  - destruct (Hbefore e) as [es Hes]; [by left|].
    rewrite <-app_comm_cons, (resolve_regions_envs_cons _ _ _ _ _ Hes).
    apply IH. intros e' He'. apply Hbefore. by right.
Qed.

(** X1: when an environment of [settings['pipeline']['env']] has no entry
    of its own in the settings, the run raises [KeyError] for the first such
    environment right after the clean step: the existing pipelines have
    been cleaned, nothing is looked up, rendered or posted.  This is for
    environments with a name other than pipeline: under that name the
    settings hold the ['pipeline'] entry, which [envs] does not model. *)
Theorem missing_environment_settings (self : SpinnakerPipeline)
    (before after : list string) (env : string) (s s1 : Remote) :
  environments self = before ++ env :: after →
  "pipeline" ∉ before ++ [env] →
  (∀ e, e ∈ before → is_Some (envs (settings self) !! e)) →
  envs (settings self) !! env = None →
  clean_pipelines (app_name self) (settings self) s = (Ok tt, s1) →
  create_pipeline self s
  = (Raise (KeyError env), s1, [CleanPipelines (app_name self)]).
Proof.
  intros Henvs _ Hbefore Hnone Hclean.
  rewrite create_pipeline_run, Hclean, Henvs.
  by rewrite resolve_regions_envs_missing.
Qed.

Lemma resolve_regions_envs_no_regions self pipeline_envs d :
  (∀ e, e ∈ pipeline_envs →
        ∃ es, envs (settings self) !! e = Some es ∧ regions es = []) →
  resolve_regions_envs self pipeline_envs d = Ok d.
Proof.
  revert d. induction pipeline_envs as [|e rest IH]; intros d Hall; [done|].
  destruct (Hall e) as (es & Hes & Hnil); [by left|].
  rewrite (resolve_regions_envs_cons _ _ _ _ _ Hes), Hnil.
  apply IH. intros e' He'. apply Hall. by right.
Qed.

(** X2: when no environment declares a region (in particular when there is
    no environment), the run cleans the existing pipelines, logs the empty
    mapping, fetches the subnets and returns [True]: no wrapper is rendered
    and nothing is posted. *)
Theorem no_region_no_pipeline (self : SpinnakerPipeline) (s s1 : Remote)
    (subnets : gmap string (gmap string Subnet)) :
  (∀ e, e ∈ environments self →
        ∃ es, envs (settings self) !! e = Some es ∧ regions es = []) →
  clean_pipelines (app_name self) (settings self) s = (Ok tt, s1) →
  get_subnets = Ok subnets →
  create_pipeline self s
  = (Ok true, s1,
     [CleanPipelines (app_name self); Info (EnvironmentsAndRegions []);
      GetSubnets]).
Proof.
  intros Hall Hclean Hsub.
  rewrite create_pipeline_run, Hclean, Hsub.
  by rewrite resolve_regions_envs_no_regions.
Qed.

(** ** Rendering comes before publishing (lines 153-185) *)

Lemma post_pipeline_publishing self pipeline s :
  Forall publishing (trace (post_pipeline self pipeline s)).
Proof.
  rewrite post_pipeline_run.
  destruct (requests_post _ _ s) as [[resp|w] s1];
    [|by repeat constructor].
  destruct (ok resp).
  - destruct (pipeline_name _); by repeat constructor.
  - destruct (json resp); by repeat constructor.
Qed.

Lemma post_pipelines_publishing self items s :
  Forall publishing (trace (post_pipelines self items s)).
Proof.
  revert s. induction items as [|[region p] items IH]; intros s.
  { constructor. }
  rewrite post_pipelines_cons.
  destruct (renumerate_stages p) as [p'|e]; [|constructor].
  pose proof (post_pipeline_publishing self (inr p') s) as Hp.
  destruct (post_pipeline _ _ s) as [[[[]|e] s1] t]; [|done].
  specialize (IH s1).
  destruct (post_pipelines _ items s1) as [[r s2] t'].
  apply Forall_app. by split.
Qed.

(** X3: in every run all rendering comes before all publishing: the trace
    splits into a part without any request and a part that holds only
    requests and their success records.  So when rendering raises for any
    region, the run ends with that error and no pipeline of any region has
    been sent: the remote is left as the clean step left it. *)
Theorem rendering_precedes_publishing (self : SpinnakerPipeline)
    (s : Remote) :
  (∃ t1 t2,
     trace (create_pipeline self s) = t1 ++ t2
     ∧ posts t1 = []
     ∧ Forall publishing t2)
  ∧ (∀ s1 regions_envs subnets e,
       clean_pipelines (app_name self) (settings self) s = (Ok tt, s1) →
       resolve_regions_envs self (environments self) [] = Ok regions_envs →
       get_subnets = Ok subnets →
       result (render_regions self subnets regions_envs [] s1) = Raise e →
       result (create_pipeline self s) = Raise e
       ∧ final (create_pipeline self s) = s1
       ∧ posts (trace (create_pipeline self s)) = []).
Proof.
  split.
  - rewrite create_pipeline_run.
    destruct (clean_pipelines _ _ s) as [[[]|e] s1];
      [|by eexists _, []; rewrite app_nil_r].
    destruct (resolve_regions_envs _ _ _) as [regions_envs|e];
      [|by eexists _, []; rewrite app_nil_r].
    destruct get_subnets as [subnets|e];
      [|by eexists _, []; rewrite app_nil_r].
    destruct (render_regions_quiet self subnets regions_envs [] s1)
      as (r & t & -> & Hp).
    destruct r as [pipelines|e].
    + pose proof (post_pipelines_publishing self pipelines s1) as Hpub.
      destruct (post_pipelines _ _ s1) as [[[[]|e] s3] t'];
        exists (preamble self regions_envs ++ t), t';
        by rewrite posts_app, Hp, <-app_assoc.
    + exists (preamble self regions_envs ++ t), [].
      by rewrite posts_app, Hp, app_nil_r.
  - intros s1 regions_envs subnets e Hclean Hres Hsub Hrender.
    rewrite create_pipeline_run, Hclean, Hres, Hsub.
    destruct (render_regions_quiet self subnets regions_envs [] s1)
      as (r & t & Hrun & Hp).
    rewrite Hrun in Hrender |- *. unfold result in Hrender.
    cbn [fst] in Hrender. subst r.
    unfold result, final, trace. cbn [fst snd].
    split_and!; [done|done|]. by rewrite posts_app, Hp.
Qed.

(** ** What is sent (lines 48-76 and 182-185) *)

Lemma requests_app t1 t2 : requests (t1 ++ t2) = requests t1 ++ requests t2.
Proof. apply omap_app. Qed.

Lemma posts_requests t : posts t = (requests t).*2.
Proof.
  unfold posts, requests. induction t as [|ev t IH]; [done|].
  destruct ev; csimpl; by rewrite ?IH.
Qed.

Lemma requests_nil t : posts t = [] → requests t = [].
Proof. rewrite posts_requests. by intros ?%fmap_nil_inv. Qed.

(** A publishing loop that returns has sent each pipeline, renumbered, to
    the pipelines address. *)
Lemma post_pipelines_requests self items s s' t :
  post_pipelines self items s = (Ok tt, s', t) →
  Forall2 (λ item req, ∃ p', renumerate_stages item.2 = Ok p'
                             ∧ req = (pipelines_url, json_dumps p'))
    items (requests t).
Proof.
  revert s t. induction items as [|[region p] items IH]; intros s t.
  - simpl. unfold ret. intros [= <- <-]. constructor.
  - rewrite post_pipelines_cons.
    destruct (renumerate_stages p) as [p'|e] eqn:Hp; [|done].
    rewrite post_pipeline_run.
    destruct (requests_post _ _ s) as [[resp|w] s1]; [|done].
    destruct (ok resp); [|by destruct (json resp)].
    destruct (pipeline_name _) as [name|w]; [|done].
    destruct (post_pipelines _ items s1) as [[r s2] t'] eqn:Hrest.
    intros [= -> -> <-]. unfold requests. csimpl.
    constructor; [by eauto|]. by eapply IH.
Qed.

(** X4: a run that returns [True] has sent exactly one request for each
    region of the resolved mapping, in the order of the mapping, all to
    [API_URL/pipelines]: the body of the request of a region is
    [json.dumps] of its assembled pipeline after [renumerate_stages]. *)
Theorem one_request_per_region (self : SpinnakerPipeline) (s s' : Remote)
    (t : list Event) :
  create_pipeline self s = (Ok true, s', t) →
  ∃ regions_envs subnets pipelines,
    resolve_regions_envs self (environments self) [] = Ok regions_envs
    ∧ get_subnets = Ok subnets
    ∧ result (render_regions self subnets regions_envs [] s) = Ok pipelines
    ∧ Dict.keys pipelines = Dict.keys regions_envs
    ∧ length (requests t) = length regions_envs
    ∧ Forall2 (λ item req, ∃ p', renumerate_stages item.2 = Ok p'
                               ∧ req = (pipelines_url, json_dumps p'))
        pipelines (requests t).
Proof.
  intros Hrun.
  apply create_pipeline_Ok in Hrun
    as (s1 & regions_envs & subnets & pipelines & tr & tp
        & Hclean & Hres & Hsub & Hrender & Hpost & -> & Hposts).
  exists regions_envs, subnets, pipelines.
  assert (Dict.keys pipelines = Dict.keys regions_envs) as Hkeys.
  { destruct (render_regions_run self subnets regions_envs [] s1)
      as (t & Ht).
    { simpl. by eapply resolved_NoDup. }
    rewrite Ht in Hrender.
    destruct (mapM _ _) as [ps|e] eqn:Hps; [|done].
    injection Hrender as <- _. by eapply assemble_item_keys. }
  destruct (render_regions_quiet self subnets regions_envs [] s1)
    as (r & t & Hquiet & Hp).
  rewrite Hquiet in Hrender. injection Hrender as -> <-.
  pose proof (post_pipelines_requests _ _ _ _ _ Hpost) as HF.
  assert (requests (preamble self regions_envs ++ t ++ tp) = requests tp)
    as ->.
  { rewrite !requests_app, (requests_nil t Hp). done. }
  split_and!; try done.
  - rewrite (render_regions_state self subnets regions_envs s s1 Hres).
    by rewrite Hquiet.
  - apply Forall2_length in HF. rewrite <-HF.
    unfold Dict.keys in Hkeys.
    by rewrite <-(length_fmap fst pipelines), Hkeys, length_fmap.
Qed.

Lemma bodies_cons region p items :
  bodies ((region, p) :: items)
  = match renumerate_stages p with
    | Ok p' => json_dumps p' :: bodies items
    | Raise _ => bodies items
    end.
Proof. unfold bodies. csimpl. by destruct (renumerate_stages p). Qed.

(** X5: nothing is sent twice and nothing out of order: a call of
    [post_pipeline] sends exactly one request, whatever the answer, and the
    bodies sent by the publishing loop are, in order, the first ones of the
    pipelines' bodies (all of them when the loop returns).  The only
    changes of the remote state are those of the requests. *)
Theorem no_request_twice (self : SpinnakerPipeline) :
  (∀ pipeline s,
     requests (trace (post_pipeline self pipeline s))
     = [(pipelines_url, to_json pipeline)]
     ∧ final (post_pipeline self pipeline s)
       = (requests_post pipelines_url (to_json pipeline) s).2)
  ∧ (∀ items s,
       posts (trace (post_pipelines self items s)) `prefix_of` bodies items
       ∧ (length (posts (trace (post_pipelines self items s)))
          ≤ length items)%nat
       ∧ (is_Ok (result (post_pipelines self items s)) →
          posts (trace (post_pipelines self items s)) = bodies items)).
Proof.
  split.
  - intros pipeline s. rewrite post_pipeline_run.
    destruct (requests_post _ _ s) as [[resp|w] s1]; [|done].
    destruct (ok resp).
    + by destruct (pipeline_name _).
    + by destruct (json resp).
  - intros items s. revert s.
    induction items as [|[region p] items IH]; intros s.
    { by split_and!; [apply prefix_nil|simpl; lia|]. }
    rewrite post_pipelines_cons, bodies_cons.
    destruct (renumerate_stages p) as [p'|e];
      [|by split_and!; [apply prefix_nil|simpl; lia|]].
    rewrite post_pipeline_run. cbn [to_json].
    destruct (requests_post _ _ s) as [[resp|w] s1];
      [|by split_and!; [apply prefix_cons, prefix_nil|simpl; lia|]].
    destruct (ok resp).
    + destruct (pipeline_name _) as [name|w];
        [|by split_and!; [apply prefix_cons, prefix_nil|simpl; lia|]].
      destruct (IH s1) as (Hpre & Hlen & Hok).
      destruct (post_pipelines _ items s1) as [[r s2] t'].
      unfold result, trace in *. cbn [fst snd] in *.
      change (posts ([Post pipelines_url (json_dumps p');
                      Info (SuccessfullyCreated name)] ++ t'))
        with (json_dumps p' :: posts t').
      split_and!; [by apply prefix_cons|simpl; lia|].
      intros H. by rewrite Hok.
    + destruct (json resp);
        by split_and!; [apply prefix_cons, prefix_nil|simpl; lia|].
Qed.

(** ** The wrapper (lines 78-129) *)

Lemma render_wrapper_run self region s :
  render_wrapper self region s
  = if (50 <? root_volume_size (image (pipeline (settings self))))%Z then
      (Raise (SpinnakerPipelineCreationFailed
                (root_volume_size_message
                   (root_volume_size (image (pipeline (settings self)))))),
       s, [])
    else
      match ami_lookup (effective_base self) region with
      | Raise e => (Raise e, s, [AmiLookup (effective_base self) region])
      | Ok ami_id =>
          let data := {|
            wd_ami_id := ami_id;
            wd_appname := app_name self;
            wd_base := effective_base self;
            wd_environment := "packaging";
            wd_region := region;
            wd_triggerjob := trigger_job self;
            wd_email := email (notifications (pipeline (settings self)));
            wd_slack := slack (notifications (pipeline (settings self)));
            wd_root_volume_size :=
              root_volume_size (image (pipeline (settings self)));
            wd_ami_template_file :=
              if String.eqb region "us-west-2" then "aws-ebs-west-2.json"
              else "aws-ebs.json";
          |} in
          (match get_template "pipeline-templates/pipeline_wrapper.json" data
           with
           | Raise e => Raise e
           | Ok wrapper => lib (json_loads_pipeline wrapper)
           end, s,
           [AmiLookup (effective_base self) region;
            GetTemplate "pipeline-templates/pipeline_wrapper.json" data])
      end.
Proof.
  unfold render_wrapper. fold (effective_base self).
  case_match; [done|].
  unfold bind, call, lift.
  destruct (ami_lookup _ _) as [ami_id|e]; [|done].
  assert (dict_get_default region
            (dict_get_default "us-east-1" EmptyString ami_templates_mapping)
            ami_templates_mapping
          = if String.eqb region "us-west-2" then "aws-ebs-west-2.json"
            else "aws-ebs.json") as ->.
  { unfold dict_get_default, ami_templates_mapping. cbn [Dict.get].
    rewrite (String.eqb_sym "us-east-1" region),
      (String.eqb_sym "us-west-2" region).
    destruct (String.eqb_spec region "us-east-1") as [->|]; [done|].
    by destruct (String.eqb region "us-west-2"). }
  cbv zeta. by destruct (get_template _ _).
Qed.

(** X6: the limit on the root volume is inclusive, and the steps of
    [render_wrapper] stop at the first that raises: the AMI is looked up
    exactly when [root_volume_size] is at most 50, for [self.base] when it
    is set and for the configured base otherwise; the template is rendered
    only when the look-up returned, with the AMI that was found. *)
Theorem render_wrapper_steps (self : SpinnakerPipeline) (region : string)
    (s : Remote) :
  ((∃ t, trace (render_wrapper self region s)
         = AmiLookup (effective_base self) region :: t)
   ↔ (root_volume_size (image (pipeline (settings self))) ≤ 50)%Z)
  ∧ (∀ e, (root_volume_size (image (pipeline (settings self))) ≤ 50)%Z →
          ami_lookup (effective_base self) region = Raise e →
          render_wrapper self region s
          = (Raise e, s, [AmiLookup (effective_base self) region]))
  ∧ (∀ template_file data,
       GetTemplate template_file data ∈ trace (render_wrapper self region s) →
       ami_lookup (effective_base self) region = Ok (wd_ami_id data))
  ∧ final (render_wrapper self region s) = s.
Proof.
  rewrite render_wrapper_run.
  destruct (Z.ltb_spec 50 (root_volume_size (image (pipeline (settings self)))))
    as [Hgt|Hle].
  - split_and!; [|intros; lia|by intros ?? ?%elem_of_nil|done].
    split; [by intros [t ?]|lia].
  - destruct (ami_lookup _ _) as [ami_id|e].
    + split_and!; [|done| |done].
      * split; [done|]. intros _. by eexists.
      * cbv zeta. unfold trace. cbn [snd].
        intros template_file data Hin.
        apply elem_of_cons in Hin as [?|Hin]; [done|].
        apply list_elem_of_singleton in Hin. by injection Hin as _ ->.
    + split_and!; [|by intros e' _ [= ->]| |done].
      * split; [done|]. intros _. by eexists.
      * unfold trace. cbn [snd]. intros template_file data Hin.
        apply list_elem_of_singleton in Hin. done.
Qed.

(** X7: what the wrapper template receives: the region decides the AMI
    template file, [aws-ebs-west-2.json] for us-west-2 and [aws-ebs.json]
    for every other region; the environment is always [packaging]; the
    application name, trigger job, base, notification targets and
    root volume size are those of the pipeline object and its settings. *)
Theorem wrapper_template_data (self : SpinnakerPipeline) (region : string)
    (s : Remote) (template_file : string) (data : WrapperData) :
  GetTemplate template_file data ∈ trace (render_wrapper self region s) →
  template_file = "pipeline-templates/pipeline_wrapper.json"
  ∧ wd_ami_template_file data
    = (if String.eqb region "us-west-2" then "aws-ebs-west-2.json"
       else "aws-ebs.json")
  ∧ wd_environment data = "packaging"
  ∧ wd_region data = region
  ∧ wd_base data = effective_base self
  ∧ wd_appname data = app_name self
  ∧ wd_triggerjob data = trigger_job self
  ∧ wd_email data = email (notifications (pipeline (settings self)))
  ∧ wd_slack data = slack (notifications (pipeline (settings self)))
  ∧ wd_root_volume_size data
    = root_volume_size (image (pipeline (settings self)))
  ∧ (wd_root_volume_size data ≤ 50)%Z.
Proof.
  rewrite render_wrapper_run.
  destruct (Z.ltb_spec 50 (root_volume_size (image (pipeline (settings self)))))
    as [Hgt|Hle]; [by intros ?%elem_of_nil|].
  destruct (ami_lookup _ _) as [ami_id|e].
  - cbv zeta. unfold trace. cbn [snd]. intros Hin.
    apply elem_of_cons in Hin as [?|Hin]; [done|].
    apply list_elem_of_singleton in Hin. by injection Hin as -> ->.
  - unfold trace. cbn [snd]. intros Hin.
    apply list_elem_of_singleton in Hin. done.
Qed.

(** ** Regions and their environments (lines 153-178) *)

(** X8: a region none of whose environments has subnets still gets its
    pipeline: the loop leaves one "not available" record for each
    environment, in order, and the region's pipeline is the wrapper as it was
    rendered, with no environment block. *)
Theorem region_without_available_env (self : SpinnakerPipeline)
    (subnets : gmap string (gmap string Subnet)) (region : string)
    (envs_of_region : list string) :
  (∀ env, env ∈ envs_of_region → subnets_lookup subnets env region = None) →
  (∀ previous_env p s,
     render_envs self subnets region envs_of_region previous_env p s
     = (Ok p, s, (λ env, Info (NotAvailable env region)) <$> envs_of_region))
  ∧ (∀ s, assemble self subnets region envs_of_region s
          = result (render_wrapper self region s)).
Proof.
  intros Hnone. split.
  - intros previous_env p s.
    induction envs_of_region as [|env rest IH]; [done|].
    cbn [render_envs]. rewrite Hnone by (by left).
    unfold bind, emit. rewrite IH; [done|].
    intros e He. apply Hnone. by right.
  - intros s. unfold assemble.
    assert (available_envs subnets region envs_of_region = []) as ->.
    { induction envs_of_region as [|env rest IH]; [done|].
      rewrite available_envs_cons. unfold available at 1.
      rewrite Hnone by (by left). apply IH.
      intros e He. apply Hnone. by right. }
    destruct (result _) as [[stages0 keys0]|e]; [|done].
    simpl. by rewrite app_nil_r.
Qed.

(** The calls of [construct_pipeline_block] a rendering of all the regions
    makes when nothing raises. *)
Definition expected_calls (subnets : gmap string (gmap string Subnet))
    (items : Dict.t (list string)) : list (string * option string * string) :=
  flat_map
    (λ item, (λ ep, (ep.1, ep.2, item.1))
               <$> chained None (available_envs subnets item.1 item.2))
    items.

Lemma construct_calls_app t1 t2 :
  construct_calls (t1 ++ t2) = construct_calls t1 ++ construct_calls t2.
Proof. apply omap_app. Qed.

Lemma construct_calls_render_wrapper self region s :
  construct_calls (trace (render_wrapper self region s)) = [].
Proof.
  rewrite render_wrapper_run. case_match; [done|].
  by destruct (ami_lookup _ _).
Qed.

Lemma render_regions_calls self subnets items pipelines s :
  ∃ r t,
    render_regions self subnets items pipelines s = (r, s, t)
    ∧ construct_calls t `prefix_of` expected_calls subnets items
    ∧ (is_Ok r → construct_calls t = expected_calls subnets items).
Proof.
  revert pipelines.
  induction items as [|[region envs_of_region] rest IH]; intros pipelines.
  { by exists (Ok pipelines), []. }
  cbn [render_regions]. unfold bind at 1.
  pose proof (construct_calls_render_wrapper self region s) as Hw.
  pose proof (render_wrapper_pure self region s s) as Hpure.
  destruct (render_wrapper self region s) as [[rw sw] tw].
  unfold result, trace in Hw, Hpure. cbn [fst snd] in Hw, Hpure.
  injection Hpure as ->.
  destruct rw as [wrapper|e].
  2:{ eexists _, _. split; [done|]. rewrite Hw.
      split; [apply prefix_nil|done]. }
  unfold bind at 1.
  destruct (render_envs_run self subnets region envs_of_region None wrapper s)
    as (te & Hrun & Hpre & Hok).
  rewrite Hrun in Hok |- *.
  apply (omap_prefix (λ ev, match ev with
                            | ConstructPipelineBlock env previous_env region =>
                                Some (env, previous_env, region)
                            | _ => None
                            end)) in Hpre.
  fold (construct_calls te) in Hpre.
  fold (construct_calls (region_events subnets region None envs_of_region))
    in Hpre.
  rewrite construct_calls_region_events in Hpre.
  unfold expected_calls. cbn [flat_map fst snd].
  fold (expected_calls subnets rest).
  destruct (mapM _ _) as [blocks|e]; cbn [mbind Result_bind].
  - specialize (Hok I). subst te.
    destruct (IH (Dict.set region (extend wrapper (concat blocks)) pipelines))
      as (r & t' & -> & Hrest & Hrest_ok).
    eexists _, _. split; [done|].
    rewrite !construct_calls_app, Hw, construct_calls_region_events.
    cbn [app]. split.
    + by apply prefix_app.
    + intros H. by rewrite (Hrest_ok H).
  - eexists _, _. split; [done|].
    rewrite construct_calls_app, Hw. cbn [app].
    split; [by apply prefix_app_r|done].
Qed.

(** X9: the chain of predecessors restarts in every region: over a whole
    rendering, the blocks are rendered region after region, and in each
    region for its available environments in order, the first with no
    predecessor and each other one with the available environment before it
    in the same region.  When something raises, the blocks rendered so far
    are the first ones of that sequence. *)
Theorem chain_restarts_in_every_region (self : SpinnakerPipeline)
    (subnets : gmap string (gmap string Subnet))
    (items : Dict.t (list string)) (pipelines : Dict.t Pipeline)
    (s : Remote) :
  construct_calls (trace (render_regions self subnets items pipelines s))
  `prefix_of` expected_calls subnets items
  ∧ (is_Ok (result (render_regions self subnets items pipelines s)) →
     construct_calls (trace (render_regions self subnets items pipelines s))
     = expected_calls subnets items).
Proof.
  destruct (render_regions_calls self subnets items pipelines s)
    as (r & t & -> & Hpre & Hok).
  by split.
Qed.

(** * [SpinnakerPipeline.__init__] and [runner.py]

    The runner reads the environment variables of the process, calls the
    other modules of Foremast in a fixed order and removes the generated
    file at the end.  The modules it calls are the operations of
    [RunnerCollaborators]; the pipeline module is the one embedded above. *)

Context {AppConfigs : Type}.

(** What the runner raises besides the exceptions of the modules. *)
Inductive error :=
  | Exception (e : exn)
  | TypeError (what : string)
  | AttributeError (what : string)
  | SystemExit (msg : string).

Inductive Outcome (A : Type) :=
  | Done (a : A)
  | Failed (e : error).
#[global] Arguments Done {A} a.
#[global] Arguments Failed {A} e.

Definition is_Done {A} (o : Outcome A) : Prop :=
  match o with Done _ => True | Failed _ => False end.

(** [runner.configs[env]]: the two settings the runner reads,
    [['app']['eureka_enabled']] and [['elb']['subnet_purpose']].  Every
    entry [write_variables] returns is taken to hold both, and the keys of
    the configurations are strings, so that [None] is never one. *)
Record EnvConfig := {
  eureka_enabled : bool;
  subnet_purpose : string;
}.

(** What [gogoutils] generates from the project and repository. *)
Record Names := {
  names_app : string;
  names_jenkins : string;
  names_gitlab : string;
}.

Record ForemastRunner := {
  runner_email : option string;
  runner_env : option string;
  runner_group : option string;
  runner_region : option string;
  runner_repo : option string;
  git_project : string;
  runner_app : string;
  runner_trigger_job : string;
  git_short : string;
  raw_path : string;
  json_path : string;
  configs : option (gmap string EnvConfig);
}.

Inductive RunnerLog :=
  | EurekaEnabled
  | NoEureka
  | NoSlackMessage
  | Fatal (msg : string)
  | Skipping (name : string)
  | Rebuilding (key slug : string).

(** The steps of a run of the runner: the banners, the log records and the
    calls of the other modules with their arguments.  The step of
    [get_properties] also records what the call returned. *)
Inductive Step :=
  | Banner (text : string)
  | Gogoutils (project : string)
  | ProcessGitConfigs (short : string)
  | WriteVariables (out_file short : string)
  | CreateApp (app : string) (email project repo : option string)
  | GetDetails (app : string)
  | GetProperties (prop_path : string) (read : Result Settings)
  | PipelineEvent (ev : Event)
  | OnetimePipeline (onetime app trigger prop_path : string)
  | CreateIam (env : option string) (app : string)
  | InitProperties (env : option string) (app : string)
  | CreateSecurityGroup (app : string) (env region : option string)
      (prop_path : string)
  | CreateElb (app : string) (env region : option string) (prop_path : string)
  | CreateElbDns (app : string) (env region : option string)
      (prop_path elb_subnet : string)
  | CreatePolicy (app : string) (env region : option string)
      (prop_path : string)
  | PostMessage (app : string) (env : option string) (prop_path : string)
  | Remove (path : string)
  | GetAllApps
  | Log (r : RunnerLog).

(** The process: its environment variables and what is outside of it. *)
Record World := {
  environ : gmap string string;
  outside : Remote;
}.

Definition R (A : Type) : Type := World → Outcome A * World * list Step.

Definition rret {A} (a : A) : R A := λ w, (Done a, w, []).

Definition rbind {A B} (m : R A) (k : A → R B) : R B := λ w,
  match m w with
  | (Done a, w', t) =>
      match k a w' with (r, w'', t') => (r, w'', t ++ t') end
  | (Failed e, w', t) => (Failed e, w', t)
  end.

#[local] Notation "x <~ m ;; k" := (rbind m (λ x, k))
  (at level 100, m at next level, right associativity).
#[local] Notation "m ~> k" := (rbind m (λ _, k))
  (at level 100, right associativity).

Definition rfail {A} (e : error) : R A := λ w, (Failed e, w, []).

Definition rlift {A} (o : Outcome A) : R A := λ w, (o, w, []).

Definition step (st : Step) : R unit := λ w, (Done tt, w, [st]).

Definition of_result {A} (r : Result A) : Outcome A :=
  match r with
  | Ok a => Done a
  | Raise e => Failed (Exception e)
  end.

(** A call of another module, which acts on what is outside. *)
Definition module_call {A} (st : Step) (f : Remote → Result A * Remote)
  : R A := λ w,
  match f (outside w) with
  | (r, s') => (of_result r, {| environ := environ w; outside := s' |}, [st])
  end.

(** A call of another module whose step records what the call returned. *)
Definition recorded_call {A} (st : Result A → Step)
    (f : Remote → Result A * Remote) : R A := λ w,
  match f (outside w) with
  | (r, s') => (of_result r, {| environ := environ w; outside := s' |}, [st r])
  end.

(** A call that only computes. *)
Definition pure_call {A} (st : Step) (r : Result A) : R A :=
  λ w, (of_result r, w, [st]).

(** [os.getenv(name)] *)
Definition getenv (name : string) : R (option string) :=
  λ w, (Done (environ w !! name), w, []).

(** [os.environ[name] = value] *)
Definition setenv (name value : string) : R unit :=
  λ w, (Done tt, {| environ := <[name := value]> (environ w);
                    outside := outside w |}, []).

(** A run of the pipeline module inside the runner. *)
Definition pipeline_run {A} (m : M A) : R A := λ w,
  match m (outside w) with
  | (r, s', t) =>
      (of_result r, {| environ := environ w; outside := s' |},
       PipelineEvent <$> t)
  end.

Class RunnerCollaborators := {
  (** [gogoutils.Parser(git_project).parse_url()] and
      [gogoutils.Generator] *)
  gogoutils : string → Result Names;
  process_git_configs : string → Remote → Result AppConfigs * Remote;
  write_variables :
    AppConfigs → string → string → Remote →
    Result (gmap string EnvConfig) * Remote;
  create_app :
    string → option string → option string → option string → Remote →
    Result unit * Remote;
  (** [get_app_details.get_details(app)] and its [app_name()] *)
  get_details : string → Remote → Result Generated * Remote;
  app_name_of : Generated → string;
  (** [get_properties(prop_path)] reads the file at [prop_path] *)
  get_properties : string → Remote → Result Settings * Remote;
  (** [SpinnakerPipelineOnetime(...).create_pipeline()] *)
  create_onetime_pipeline :
    string → string → string → string → Remote → Result unit * Remote;
  create_iam_resources : option string → string → Remote → Result unit * Remote;
  init_properties : option string → string → Remote → Result unit * Remote;
  create_security_group :
    string → option string → option string → string → Remote →
    Result unit * Remote;
  create_elb :
    string → option string → option string → string → Remote →
    Result unit * Remote;
  create_elb_dns :
    string → option string → option string → string → string → Remote →
    Result unit * Remote;
  create_policy :
    string → option string → option string → string → Remote →
    Result unit * Remote;
  post_message :
    string → option string → string → Remote → Result unit * Remote;
  os_remove : string → Remote → Result unit * Remote;
  get_all_apps : Remote → Result (list (gmap string string)) * Remote;
  (** [str.lower] *)
  lower : string → string;
}.

Context `{runner_collaborators : !RunnerCollaborators}.

(** ** [SpinnakerPipeline.__init__] (lines 29-46) *)

(** [base] may be [None], which [if self.base] takes as the empty string;
    [self.group_name] is set and never read. *)
Definition SpinnakerPipeline_init (app trigger prop_path : string)
    (base : option string) : R SpinnakerPipeline :=
  generated <~ module_call (GetDetails app) (get_details app) ;;
  settings <~ recorded_call (GetProperties prop_path)
                (get_properties prop_path) ;;
  rret {| self_base := default EmptyString base;
          trigger_job := trigger;
          generated := generated;
          app_name := app_name_of generated;
          settings := settings |}.

(** ** [ForemastRunner] *)

(** [str.format] of a value that may be [None]. *)
Definition format_option (o : option string) : string := default "None" o.

Definition ForemastRunner_init : R ForemastRunner :=
  email <~ getenv "EMAIL" ;;
  env <~ getenv "ENV" ;;
  group <~ getenv "PROJECT" ;;
  region <~ getenv "REGION" ;;
  repo <~ getenv "GIT_REPO" ;;
  let git_project := format_option group +:+ "/" +:+ format_option repo in
  generated <~ pure_call (Gogoutils git_project) (gogoutils git_project) ;;
  let raw_path := "./raw.properties" in
  rret {| runner_email := email;
          runner_env := env;
          runner_group := group;
          runner_region := region;
          runner_repo := repo;
          git_project := git_project;
          runner_app := names_app generated;
          runner_trigger_job := names_jenkins generated;
          git_short := names_gitlab generated;
          raw_path := raw_path;
          json_path := raw_path +:+ ".json";
          configs := None |}.

(** [self.configs = ...]: the runner with its configurations set. *)
Definition with_configs (self : ForemastRunner)
    (c : gmap string EnvConfig) : ForemastRunner :=
  {| runner_email := runner_email self;
     runner_env := runner_env self;
     runner_group := runner_group self;
     runner_region := runner_region self;
     runner_repo := runner_repo self;
     git_project := git_project self;
     runner_app := runner_app self;
     runner_trigger_job := runner_trigger_job self;
     git_short := git_short self;
     raw_path := raw_path self;
     json_path := json_path self;
     configs := Some c |}.

Definition write_configs (self : ForemastRunner) : R ForemastRunner :=
  step (Banner "Generating Configs") ~>
  app_configs <~ module_call (ProcessGitConfigs (git_short self))
                   (process_git_configs (git_short self)) ;;
  c <~ module_call (WriteVariables (raw_path self) (git_short self))
         (write_variables app_configs (raw_path self) (git_short self)) ;;
  rret (with_configs self c).

Definition runner_create_app (self : ForemastRunner) : R unit :=
  step (Banner "Creating Spinnaker App") ~>
  module_call (CreateApp (runner_app self) (runner_email self)
                 (runner_group self) (runner_repo self))
    (create_app (runner_app self) (runner_email self) (runner_group self)
       (runner_repo self)).

(** [not onetime]: [None] and the empty string are false. *)
Definition truthy (o : option string) : bool :=
  match o with
  | None => false
  | Some s => negb (String.eqb s EmptyString)
  end.

Definition runner_create_pipeline (self : ForemastRunner)
    (onetime : option string) : R unit :=
  step (Banner "Creating Pipeline") ~>
  if negb (truthy onetime) then
    spinnakerpipeline <~ SpinnakerPipeline_init (runner_app self)
                           (runner_trigger_job self) (json_path self)
                           None ;;
    _ <~ pipeline_run (create_pipeline spinnakerpipeline) ;;
    rret tt
  else
    module_call (OnetimePipeline (default EmptyString onetime)
                   (runner_app self) (runner_trigger_job self)
                   (json_path self))
      (create_onetime_pipeline (default EmptyString onetime)
         (runner_app self) (runner_trigger_job self) (json_path self)).

Definition create_iam (self : ForemastRunner) : R unit :=
  step (Banner "Creating IAM") ~>
  module_call (CreateIam (runner_env self) (runner_app self))
    (create_iam_resources (runner_env self) (runner_app self)).

Definition create_s3 (self : ForemastRunner) : R unit :=
  step (Banner "Creating S3") ~>
  module_call (InitProperties (runner_env self) (runner_app self))
    (init_properties (runner_env self) (runner_app self)).

Definition create_secgroups (self : ForemastRunner) : R unit :=
  step (Banner "Creating Security Group") ~>
  module_call (CreateSecurityGroup (runner_app self) (runner_env self)
                 (runner_region self) (json_path self))
    (create_security_group (runner_app self) (runner_env self)
       (runner_region self) (json_path self)).

Definition runner_create_elb (self : ForemastRunner) : R unit :=
  step (Banner "Creating ELB") ~>
  module_call (CreateElb (runner_app self) (runner_env self)
                 (runner_region self) (json_path self))
    (create_elb (runner_app self) (runner_env self) (runner_region self)
       (json_path self)).

(** [self.configs[self.env]]: [self.configs] is [None] until
    [write_configs] has run, and the key may be missing. *)
Definition config_of_env (self : ForemastRunner) : Outcome EnvConfig :=
  match configs self with
  | None => Failed (TypeError "'NoneType' object is not subscriptable")
  | Some c =>
      match runner_env self with
      | None => Failed (Exception (KeyError "None"))
      | Some e =>
          match c !! e with
          | Some cfg => Done cfg
          | None => Failed (Exception (KeyError e))
          end
      end
  end.

Definition create_dns (self : ForemastRunner) : R unit :=
  step (Banner "Creating DNS") ~>
  cfg <~ rlift (config_of_env self) ;;
  let elb_subnet := subnet_purpose cfg in
  module_call (CreateElbDns (runner_app self) (runner_env self)
                 (runner_region self) (json_path self) elb_subnet)
    (create_elb_dns (runner_app self) (runner_env self) (runner_region self)
       (json_path self) elb_subnet).

Definition create_autoscaling_policy (self : ForemastRunner) : R unit :=
  step (Banner "Creating Scaling Policy") ~>
  module_call (CreatePolicy (runner_app self) (runner_env self)
                 (runner_region self) (json_path self))
    (create_policy (runner_app self) (runner_env self) (runner_region self)
       (json_path self)).

Definition slack_notify (self : ForemastRunner) : R unit :=
  step (Banner "Sending slack notification") ~>
  match runner_env self with
  | None =>
      rfail (AttributeError
               "'NoneType' object has no attribute 'startswith'")
  | Some e =>
      if String.prefix "prod" e then
        module_call (PostMessage (runner_app self) (runner_env self)
                       (json_path self))
          (post_message (runner_app self) (runner_env self) (json_path self))
      else step (Log NoSlackMessage)
  end.

Definition cleanup (self : ForemastRunner) : R unit :=
  module_call (Remove (raw_path self)) (os_remove (raw_path self)).

(** ** The entry points *)

Definition prepare_infrastructure : R unit :=
  runner <~ ForemastRunner_init ;;
  runner <~ write_configs runner ;;
  create_iam runner ~>
  create_s3 runner ~>
  create_secgroups runner ~>
  cfg <~ rlift (config_of_env runner) ;;
  let eureka := eureka_enabled cfg in
  (if eureka then step (Log EurekaEnabled)
   else
     step (Log NoEureka) ~>
     runner_create_elb runner ~>
     create_dns runner ~>
     step (Log EurekaEnabled)) ~>
  slack_notify runner ~>
  cleanup runner.

Definition prepare_app_pipeline : R unit :=
  runner <~ ForemastRunner_init ;;
  runner_create_app runner ~>
  runner <~ write_configs runner ;;
  runner_create_pipeline runner None ~>
  cleanup runner.

Definition prepare_onetime_pipeline : R unit :=
  runner <~ ForemastRunner_init ;;
  runner <~ write_configs runner ;;
  onetime <~ getenv "ENV" ;;
  runner_create_pipeline runner onetime ~>
  cleanup runner.


(** [app[key]] on an application record. *)
Definition app_item (app : gmap string string) (key : string)
    : Outcome string :=
  match app !! key with
  | Some v => Done v
  | None => Failed (Exception (KeyError key))
  end.

(** The test of lines 211-212. *)
Definition selected (rebuild_project key : string) : bool :=
  String.eqb (lower key) (lower rebuild_project)
  || String.eqb rebuild_project "ALL".

Definition rebuild_app (rebuild_project : string)
    (app : gmap string string) : R unit :=
  match app !! "repoProjectKey" with
  | None =>
      name <~ rlift (app_item app "name") ;;
      step (Log (Skipping name))
  | Some key =>
      if selected rebuild_project key then
        setenv "PROJECT" key ~>
        slug <~ rlift (app_item app "repoSlug") ;;
        setenv "GIT_REPO" slug ~>
        step (Log (Rebuilding key slug)) ~>
        runner <~ ForemastRunner_init ;;
        runner <~ write_configs runner ;;
        runner_create_pipeline runner None ~>
        cleanup runner
      else rret tt
  end.

Fixpoint rebuild_apps (rebuild_project : string)
    (all_apps : list (gmap string string)) : R unit :=
  match all_apps with
  | [] => rret tt
  | app :: rest =>
      rebuild_app rebuild_project app ~>
      rebuild_apps rebuild_project rest
  end.

Definition rebuild_pipelines : R unit :=
  all_apps <~ module_call GetAllApps get_all_apps ;;
  rebuild_project <~ getenv "REBUILD_PROJECT" ;;
  match rebuild_project with
  | None =>
      let msg := "No REBUILD_PROJECT variable found" in
      step (Log (Fatal msg)) ~>
      rfail (SystemExit ("Error: " +:+ msg))
  | Some rebuild_project => rebuild_apps rebuild_project all_apps
  end.

(** ** Properties of the runner *)

Definition outcome {A} (o : Outcome A * World * list Step) : Outcome A := o.1.1.
Definition world {A} (o : Outcome A * World * list Step) : World := o.1.2.
Definition steps {A} (o : Outcome A * World * list Step) : list Step := o.2.

(** The calls of other modules in a trace: everything but banners and log
    records. *)
Definition is_call (st : Step) : bool :=
  match st with
  | Banner _ | Log _ => false
  | _ => true
  end.

Definition calls (t : list Step) : list Step := filter is_call t.

(** *** Runs that return *)

Lemma rbind_Done {A B} (m : R A) (k : A → R B) w b w' t :
  rbind m k w = (Done b, w', t) →
  ∃ a w1 t1 t2,
    m w = (Done a, w1, t1) ∧ k a w1 = (Done b, w', t2) ∧ t = t1 ++ t2.
Proof.
  unfold rbind. destruct (m w) as [[[a|e] w1] t1]; [|done].
  destruct (k a w1) as [[r w2] t2] eqn:Hk. intros [= -> -> <-].
  by exists a, w1, t1, t2.
Qed.

Lemma module_call_Done {A} st (f : Remote → Result A * Remote) w a w' t :
  module_call st f w = (Done a, w', t) →
  ∃ s', f (outside w) = (Ok a, s')
        ∧ w' = {| environ := environ w; outside := s' |}
        ∧ t = [st].
Proof.
  unfold module_call. destruct (f (outside w)) as [[a'|e] s'] eqn:Hf; [|done].
  intros [= -> <- <-]. by exists s'.
Qed.

Lemma recorded_call_Done {A} (st : Result A → Step)
    (f : Remote → Result A * Remote) w a w' t :
  recorded_call st f w = (Done a, w', t) →
  ∃ s', f (outside w) = (Ok a, s')
        ∧ w' = {| environ := environ w; outside := s' |}
        ∧ t = [st (Ok a)].
Proof.
  unfold recorded_call.
  destruct (f (outside w)) as [[a'|e] s'] eqn:Hf; [|done].
  intros [= -> <- <-]. by exists s'.
Qed.

Lemma pure_call_Done {A} st (r : Result A) w a w' t :
  pure_call st r w = (Done a, w', t) → r = Ok a ∧ w' = w ∧ t = [st].
Proof. unfold pure_call. destruct r; [|done]. by intros [= -> <- <-]. Qed.


(** The project the runner is for, as [__init__] formats it. *)
Definition project_of (environ : gmap string string) : string :=
  format_option (environ !! "PROJECT") +:+ "/"
  +:+ format_option (environ !! "GIT_REPO").

Lemma ForemastRunner_init_Done w runner w' t :
  ForemastRunner_init w = (Done runner, w', t) →
  ∃ names,
    gogoutils (project_of (environ w)) = Ok names
    ∧ runner = {| runner_email := environ w !! "EMAIL";
                  runner_env := environ w !! "ENV";
                  runner_group := environ w !! "PROJECT";
                  runner_region := environ w !! "REGION";
                  runner_repo := environ w !! "GIT_REPO";
                  git_project := project_of (environ w);
                  runner_app := names_app names;
                  runner_trigger_job := names_jenkins names;
                  git_short := names_gitlab names;
                  raw_path := "./raw.properties";
                  json_path := "./raw.properties.json";
                  configs := None |}
    ∧ w' = w
    ∧ t = [Gogoutils (project_of (environ w))].
Proof.
  unfold ForemastRunner_init, rbind, getenv, pure_call, rret. simpl.
  fold (project_of (environ w)).
  destruct (gogoutils _) as [names|e]; [|done]. simpl.
  intros [= <- <- <-]. by exists names.
Qed.

Lemma write_configs_Done self w runner w' t :
  write_configs self w = (Done runner, w', t) →
  ∃ c, runner = with_configs self c
       ∧ environ w' = environ w
       ∧ t = [Banner "Generating Configs"; ProcessGitConfigs (git_short self);
              WriteVariables (raw_path self) (git_short self)].
Proof.
  unfold write_configs, step. intros H.
  apply rbind_Done in H as ([] & w1 & t1 & t2 & [= <- <-] & H & ->).
  apply rbind_Done in H as (ac & w2 & t3 & t4 & H1 & H & ->).
  apply rbind_Done in H as (c & w3 & t5 & t6 & H2 & [= <- <- <-] & ->).
  apply module_call_Done in H1 as (s1 & _ & -> & ->).
  apply module_call_Done in H2 as (s2 & _ & -> & ->).
  by exists c.
Qed.

(** The configurations of the runner are the ones [write_variables]
    returned for the application configurations read from the repository. *)
Lemma write_configs_configs self w runner w' t :
  write_configs self w = (Done runner, w', t) →
  ∃ ac s1 c s2,
    process_git_configs (git_short self) (outside w) = (Ok ac, s1)
    ∧ write_variables ac (raw_path self) (git_short self) s1 = (Ok c, s2)
    ∧ configs runner = Some c.
Proof.
  unfold write_configs, step. intros H.
  apply rbind_Done in H as ([] & w1 & t1 & t2 & [= <- <-] & H & ->).
  apply rbind_Done in H as (ac & w2 & t3 & t4 & H1 & H & ->).
  apply rbind_Done in H as (c & w3 & t5 & t6 & H2 & [= <- <- <-] & ->).
  apply module_call_Done in H1 as (s1 & H1 & -> & ->).
  apply module_call_Done in H2 as (s2 & H2 & -> & ->).
  by exists ac, s1, c, s2.
Qed.

(** A method that prints its banner and calls one module. *)
Lemma banner_call_Done text st (f : Remote → Result unit * Remote) w u w' t :
  (step (Banner text) ~> module_call st f) w = (Done u, w', t) →
  environ w' = environ w ∧ t = [Banner text; st].
Proof.
  intros H.
  apply rbind_Done in H as ([] & w1 & t1 & t2 & [= <- <-] & H & ->).
  by apply module_call_Done in H as (s1 & _ & -> & ->).
Qed.

Lemma slack_notify_Done self w u w' t :
  slack_notify self w = (Done u, w', t) →
  ∃ e, runner_env self = Some e
       ∧ environ w' = environ w
       ∧ calls t = if String.prefix "prod" e
                   then [PostMessage (runner_app self) (runner_env self)
                           (json_path self)]
                   else [].
Proof.
  unfold slack_notify. intros H.
  apply rbind_Done in H as ([] & w1 & t1 & t2 & [= <- <-] & H & ->).
  destruct (runner_env self) as [e|] eqn:He; [|done].
  exists e. split; [done|].
  destruct (String.prefix "prod" e).
  - by apply module_call_Done in H as (s1 & _ & -> & ->).
  - unfold step in H. by injection H as _ <- <-.
Qed.

Lemma create_dns_Done self w u w' t :
  create_dns self w = (Done u, w', t) →
  ∃ cfg, config_of_env self = Done cfg
         ∧ environ w' = environ w
         ∧ calls t = [CreateElbDns (runner_app self) (runner_env self)
                        (runner_region self) (json_path self)
                        (subnet_purpose cfg)].
Proof.
  unfold create_dns. intros H.
  apply rbind_Done in H as ([] & w1 & t1 & t2 & [= <- <-] & H & ->).
  apply rbind_Done in H as (cfg & w2 & t3 & t4 & H1 & H & ->).
  unfold rlift in H1. injection H1 as H1 <- <-.
  apply module_call_Done in H as (s1 & _ & -> & ->).
  by exists cfg.
Qed.

Lemma calls_app t1 t2 : calls (t1 ++ t2) = calls t1 ++ calls t2.
Proof. apply filter_app. Qed.

(** X10: a run of [prepare_infrastructure] that returns had [ENV] set, and
    the configurations [write_variables] returned have an entry for it.  The
    run has called, in this order: the configuration writer, IAM, S3 and the
    security group; the ELB and its DNS exactly when that entry does not
    enable Eureka; the Slack notification exactly when the environment
    starts with "prod"; and last the removal of the generated file. *)
Theorem prepare_infrastructure_calls (w w' : World) (t : list Step) :
  prepare_infrastructure w = (Done tt, w', t) →
  ∃ names env ac s1 (c : gmap string EnvConfig) s2 cfg,
    gogoutils (project_of (environ w)) = Ok names
    ∧ environ w !! "ENV" = Some env
    ∧ process_git_configs (names_gitlab names) (outside w) = (Ok ac, s1)
    ∧ write_variables ac "./raw.properties" (names_gitlab names) s1
      = (Ok c, s2)
    ∧ c !! env = Some cfg
    ∧ environ w' = environ w
    ∧ calls t
      = [Gogoutils (project_of (environ w));
         ProcessGitConfigs (names_gitlab names);
         WriteVariables "./raw.properties" (names_gitlab names);
         CreateIam (Some env) (names_app names);
         InitProperties (Some env) (names_app names);
         CreateSecurityGroup (names_app names) (Some env)
           (environ w !! "REGION") "./raw.properties.json"]
        ++ (if eureka_enabled cfg then []
            else [CreateElb (names_app names) (Some env)
                    (environ w !! "REGION") "./raw.properties.json";
                  CreateElbDns (names_app names) (Some env)
                    (environ w !! "REGION") "./raw.properties.json"
                    (subnet_purpose cfg)])
        ++ (if String.prefix "prod" env
            then [PostMessage (names_app names) (Some env)
                    "./raw.properties.json"]
            else [])
        ++ [Remove "./raw.properties"].
Proof.
  unfold prepare_infrastructure. intros H.
  apply rbind_Done in H as (r0 & w1 & t1 & t1' & Hinit & H & ->).
  apply ForemastRunner_init_Done in Hinit as (names & Hnames & -> & -> & ->).
  apply rbind_Done in H as (runner & w2 & t2 & t2' & Hwrite & H & ->).
  pose proof (write_configs_configs _ _ _ _ _ Hwrite)
    as (ac & s1 & c' & s2 & Hgit & Hvars & Hc').
  apply write_configs_Done in Hwrite as (c & -> & Hw2 & ->).
  cbn [configs with_configs git_short raw_path] in Hgit, Hvars, Hc'.
  injection Hc' as <-.
  apply rbind_Done in H as ([] & w3 & t3 & t3' & Hiam & H & ->).
  apply banner_call_Done in Hiam as (Hw3 & ->).
  apply rbind_Done in H as ([] & w4 & t4 & t4' & Hs3 & H & ->).
  apply banner_call_Done in Hs3 as (Hw4 & ->).
  apply rbind_Done in H as ([] & w5 & t5 & t5' & Hsg & H & ->).
  apply banner_call_Done in Hsg as (Hw5 & ->).
  apply rbind_Done in H as (cfg & w6 & t6 & t6' & Hcfg & H & ->).
  unfold rlift in Hcfg. injection Hcfg as Hcfg <- <-.
  unfold config_of_env in Hcfg. cbn [configs with_configs runner_env] in Hcfg.
  destruct (environ w !! "ENV") as [env|] eqn:Henv; [|done].
  destruct (c !! env) as [cfg'|] eqn:Hc; [|done]. injection Hcfg as ->.
  apply rbind_Done in H as ([] & w7 & t7 & t7' & Helb & H & ->).
  apply rbind_Done in H as ([] & w8 & t8 & t8' & Hslack & H & ->).
  apply slack_notify_Done in Hslack as (e & He & Hw8 & Hcalls8).
  cbn [with_configs runner_env runner_app json_path] in He, Hcalls8.
  injection He as <-.
  unfold cleanup in H. apply module_call_Done in H as (s9 & _ & -> & ->).
  exists names, env, ac, s1, c, s2, cfg.
  assert (environ w7 = environ w5
          ∧ calls t7
            = if eureka_enabled cfg then []
              else [CreateElb (names_app names) (Some env)
                      (environ w !! "REGION") "./raw.properties.json";
                    CreateElbDns (names_app names) (Some env)
                      (environ w !! "REGION") "./raw.properties.json"
                      (subnet_purpose cfg)]) as [Hw7 Hcalls7].
  { destruct (eureka_enabled cfg).
    - unfold step in Helb. by injection Helb as <- <-.
    - apply rbind_Done in Helb as ([] & wa & ta & ta' & [= <- <-] & Helb & ->).
      apply rbind_Done in Helb as ([] & wb & tb & tb' & Hb & Helb & ->).
      apply banner_call_Done in Hb as (Hwb & ->).
      apply rbind_Done in Helb as ([] & wc & tc & tc' & Hc' & [= <- <-] & ->).
      apply create_dns_Done in Hc' as (cfg2 & Hcfg2 & Hwc & Hcallsc).
      unfold config_of_env in Hcfg2.
      cbn [configs with_configs runner_env runner_app runner_region
             json_path] in Hcfg2, Hcallsc.
      rewrite Hc in Hcfg2. injection Hcfg2 as <-.
      split; [congruence|].
      rewrite !calls_app, Hcallsc. reflexivity. }
  split_and!; try done.
  - simpl. congruence.
  - rewrite !calls_app, Hcalls7, Hcalls8. reflexivity.
Qed.

(** *** What every run does *)

Lemma rbind_run {A B} (m : R A) (k : A → R B) w :
  rbind m k w
  = match m w with
    | (Done a, w1, t1) =>
        (outcome (k a w1), world (k a w1), t1 ++ steps (k a w1))
    | (Failed e, w1, t1) => (Failed e, w1, t1)
    end.
Proof.
  unfold rbind, outcome, world, steps.
  destruct (m w) as [[[a|e] w1] t1]; [|done]. by destruct (k a w1) as [[??]?].
Qed.

Lemma Forall_rbind {A B} (T : Step → Prop) (m : R A) (k : A → R B) w :
  Forall T (steps (m w)) →
  (∀ a w1 t1, m w = (Done a, w1, t1) → Forall T (steps (k a w1))) →
  Forall T (steps (rbind m k w)).
Proof.
  intros Hm Hk. rewrite rbind_run.
  destruct (m w) as [[[a|e] w1] t1]; [|done].
  apply Forall_app. split; [done|]. by eapply Hk.
Qed.

Lemma Forall_step (T : Step → Prop) st w : T st → Forall T (steps (step st w)).
Proof. by repeat constructor. Qed.

Lemma Forall_module_call {A} (T : Step → Prop) st
    (f : Remote → Result A * Remote) w :
  T st → Forall T (steps (module_call st f w)).
Proof.
  unfold module_call. destruct (f (outside w)). by repeat constructor.
Qed.

Lemma Forall_recorded_call {A} (T : Step → Prop) (st : Result A → Step)
    (f : Remote → Result A * Remote) w :
  (∀ r, T (st r)) → Forall T (steps (recorded_call st f w)).
Proof.
  intros HT. unfold recorded_call. destruct (f (outside w)).
  by repeat constructor.
Qed.

Lemma Forall_pure_call {A} (T : Step → Prop) st (r : Result A) w :
  T st → Forall T (steps (pure_call st r w)).
Proof. by repeat constructor. Qed.

Lemma Forall_silent {A} (T : Step → Prop) (m : R A) w :
  steps (m w) = [] → Forall T (steps (m w)).
Proof. intros ->. constructor. Qed.

Lemma Forall_pipeline_run {A} (T : Step → Prop) (m : M A) w :
  (∀ ev, T (PipelineEvent ev)) → Forall T (steps (pipeline_run m w)).
Proof.
  intros HT. unfold pipeline_run.
  destruct (m (outside w)) as [[r s'] t]. unfold steps. cbn [snd].
  apply Forall_fmap, Forall_forall. intros ev _. apply HT.
Qed.

(** The steps of the methods of the runner, under a property of steps
    that the goal fixes. *)
Ltac steps_of_runner :=
  repeat first
    [ apply Forall_rbind; [|intros ? ? ? _]
    | apply Forall_step; done
    | apply Forall_module_call; done
    | apply Forall_recorded_call; done
    | apply Forall_pure_call; done
    | apply Forall_pipeline_run; done
    | apply Forall_silent; reflexivity
    | progress unfold ForemastRunner_init, write_configs, runner_create_app,
        runner_create_pipeline, SpinnakerPipeline_init, create_iam, create_s3,
        create_secgroups, runner_create_elb, create_dns,
        create_autoscaling_policy, slack_notify, cleanup
    | case_match ].













Lemma SpinnakerPipeline_init_Done app trigger prop_path base w sp w' t :
  SpinnakerPipeline_init app trigger prop_path base w = (Done sp, w', t) →
  ∃ generated s1 settings s2,
    get_details app (outside w) = (Ok generated, s1)
    ∧ get_properties prop_path s1 = (Ok settings, s2)
    ∧ sp = {| self_base := default EmptyString base;
              trigger_job := trigger;
              generated := generated;
              app_name := app_name_of generated;
              settings := settings |}
    ∧ w' = {| environ := environ w; outside := s2 |}
    ∧ t = [GetDetails app; GetProperties prop_path (Ok settings)].
Proof.
  unfold SpinnakerPipeline_init. intros H.
  apply rbind_Done in H as (generated & w1 & t1 & t2 & H1 & H & ->).
  apply rbind_Done in H as (settings & w2 & t3 & t4 & H2 & [= <- <- <-] & ->).
  apply module_call_Done in H1 as (s1 & Hd & -> & ->).
  apply recorded_call_Done in H2 as (s2 & Hp & -> & ->).
  by exists generated, s1, settings, s2.
Qed.





(** ** [rebuild_pipelines] (lines 198-222) *)

(** X13: without [REBUILD_PROJECT], [rebuild_pipelines] stops with
    [SystemExit] and the message "Error: No REBUILD_PROJECT variable
    found", after a fatal log record.  The applications have been listed
    before the variable is looked at, and no runner is created. *)
Theorem rebuild_needs_project (w : World) :
  environ w !! "REBUILD_PROJECT" = None →
  rebuild_pipelines w
  = match get_all_apps (outside w) with
    | (Ok _, s') =>
        (Failed (SystemExit "Error: No REBUILD_PROJECT variable found"),
         {| environ := environ w; outside := s' |},
         [GetAllApps; Log (Fatal "No REBUILD_PROJECT variable found")])
    | (Raise e, s') =>
        (Failed (Exception e), {| environ := environ w; outside := s' |},
         [GetAllApps])
    end.
Proof.
  intros Hnone. unfold rebuild_pipelines, rbind, module_call, getenv.
  destruct (get_all_apps (outside w)) as [[apps|e] s']; [|done].
  cbn [of_result environ]. by rewrite Hnone.
Qed.

(** The applications [rebuild_pipelines] rebuilds. *)
Definition to_rebuild (rebuild_project : string)
    (app : gmap string string) : bool :=
  match app !! "repoProjectKey" with
  | Some key => selected rebuild_project key
  | None => false
  end.

(** The project a rebuilt application's runner is made for. *)
Definition app_project (app : gmap string string) : string :=
  default EmptyString (app !! "repoProjectKey") +:+ "/"
  +:+ default EmptyString (app !! "repoSlug").

Definition plan (rebuild_project : string)
    (all_apps : list (gmap string string)) : list string :=
  app_project <$> filter (to_rebuild rebuild_project) all_apps.

(** The projects runners were created for in a trace. *)
Definition runners (t : list Step) : list string :=
  omap (λ st, match st with Gogoutils project => Some project | _ => None end)
    t.

Definition not_gogoutils (st : Step) : Prop :=
  match st with Gogoutils _ => False | _ => True end.

Lemma runners_app t1 t2 : runners (t1 ++ t2) = runners t1 ++ runners t2.
Proof. apply omap_app. Qed.

Lemma runners_none t : Forall not_gogoutils t → runners t = [].
Proof.
  unfold runners. induction 1 as [|st t Hst _ IH]; [done|].
  destruct st; csimpl; done.
Qed.

Lemma plan_cons rebuild_project app rest :
  plan rebuild_project (app :: rest)
  = (if to_rebuild rebuild_project app then [app_project app] else [])
    ++ plan rebuild_project rest.
Proof.
  unfold plan. rewrite filter_cons.
  destruct (to_rebuild rebuild_project app); by case_decide.
Qed.

Lemma steps_rbind {A B} (m : R A) (k : A → R B) w :
  steps (rbind m k w)
  = steps (m w) ++ match outcome (m w) with
                   | Done a => steps (k a (world (m w)))
                   | Failed _ => []
                   end.
Proof.
  rewrite rbind_run. destruct (m w) as [[[a|e] w1] t1]; [done|].
  unfold steps, outcome. cbn [fst snd]. by rewrite app_nil_r.
Qed.

Lemma outcome_rbind {A B} (m : R A) (k : A → R B) w :
  outcome (rbind m k w)
  = match outcome (m w) with
    | Done a => outcome (k a (world (m w)))
    | Failed e => Failed e
    end.
Proof. rewrite rbind_run. by destruct (m w) as [[[a|e] w1] t1]. Qed.

Lemma ForemastRunner_init_steps w :
  steps (ForemastRunner_init w) = [Gogoutils (project_of (environ w))].
Proof.
  unfold ForemastRunner_init, rbind, getenv, pure_call, rret. simpl.
  fold (project_of (environ w)). by destruct (gogoutils _).
Qed.

(** One application: the runner is created for the project key and slug
    of the application, which reach it through the environment. *)
Lemma rebuild_app_steps rebuild_project app w :
  runners (steps (rebuild_app rebuild_project app w))
  = if to_rebuild rebuild_project app
    then match app !! "repoSlug" with
         | Some _ => [app_project app]
         | None => []
         end
    else [].
Proof.
  unfold rebuild_app, to_rebuild, app_project, setenv, rlift, step, app_item.
  destruct (app !! "repoProjectKey") as [key|] eqn:Hkey.
  2:{ rewrite steps_rbind. by destruct (app !! "name"). }
  destruct (selected rebuild_project key); [|done].
  destruct (app !! "repoSlug") as [slug|] eqn:Hslug.
  2:{ by repeat (rewrite steps_rbind;
                 cbn [outcome world steps fst snd List.app environ outside]). }
  repeat (rewrite steps_rbind;
          cbn [outcome world steps fst snd List.app environ outside]).
  rewrite ForemastRunner_init_steps. cbn [environ default].
  replace (project_of _) with (key +:+ "/" +:+ slug).
  2:{ unfold project_of. rewrite lookup_insert_ne by done.
      by rewrite !lookup_insert_eq. }
  match goal with
  | |- runners (?a :: [?b] ++ ?t) = _ =>
      change (runners (a :: [b] ++ t)) with (runners [a; b] ++ runners t);
      enough (runners t = []) as -> by done
  end.
  destruct (outcome (ForemastRunner_init _)) as [runner|e]; [|done].
  apply runners_none. steps_of_runner.
Qed.

Lemma rebuild_app_Done rebuild_project app w :
  is_Done (outcome (rebuild_app rebuild_project app w)) →
  to_rebuild rebuild_project app = true →
  is_Some (app !! "repoSlug").
Proof.
  unfold rebuild_app, to_rebuild, setenv, rlift, step, app_item.
  destruct (app !! "repoProjectKey") as [key|] eqn:Hkey; [|done].
  intros Hdone Hsel. rewrite Hsel in Hdone.
  destruct (app !! "repoSlug") as [slug|]; [by eexists|].
  exfalso. revert Hdone.
  by repeat (rewrite outcome_rbind;
             cbn [outcome world steps fst snd environ outside]).
Qed.

Lemma rebuild_app_runners rebuild_project app w :
  runners (steps (rebuild_app rebuild_project app w))
  `prefix_of` (if to_rebuild rebuild_project app then [app_project app]
               else [])
  ∧ (is_Done (outcome (rebuild_app rebuild_project app w)) →
     runners (steps (rebuild_app rebuild_project app w))
     = if to_rebuild rebuild_project app then [app_project app] else []).
Proof.
  rewrite rebuild_app_steps. split.
  - destruct (to_rebuild _ _); [|done].
    destruct (app !! "repoSlug"); [done|apply prefix_nil].
  - intros Hdone.
    destruct (to_rebuild _ _) eqn:Hsel; [|done].
    by destruct (rebuild_app_Done _ _ _ Hdone Hsel) as [slug ->].
Qed.

Lemma selected_ALL key : selected "ALL" key = true.
Proof. unfold selected. apply orb_true_r. Qed.

Lemma rebuild_apps_runners rebuild_project all_apps w :
  runners (steps (rebuild_apps rebuild_project all_apps w))
  `prefix_of` plan rebuild_project all_apps
  ∧ (is_Done (outcome (rebuild_apps rebuild_project all_apps w)) →
     runners (steps (rebuild_apps rebuild_project all_apps w))
     = plan rebuild_project all_apps).
Proof.
  revert w. induction all_apps as [|app rest IH]; intros w; [done|].
  cbn [rebuild_apps]. rewrite steps_rbind, outcome_rbind, plan_cons.
  rewrite runners_app.
  destruct (rebuild_app_runners rebuild_project app w) as [Hpre Hok].
  destruct (outcome (rebuild_app rebuild_project app w)) as [[]|e].
  - rewrite (Hok I).
    destruct (IH (world (rebuild_app rebuild_project app w))) as [IH1 IH2].
    split; [by apply prefix_app|]. intros Hdone. by rewrite IH2.
  - rewrite app_nil_r. split; [by apply prefix_app_r|done].
Qed.

Lemma plan_ALL all_apps :
  plan "ALL" all_apps
  = app_project
      <$> filter (λ app, is_Some (app !! "repoProjectKey")) all_apps.
Proof.
  unfold plan. f_equal.
  induction all_apps as [|app rest IH]; [done|].
  rewrite !filter_cons, IH. unfold to_rebuild.
  destruct (app !! "repoProjectKey") as [key|].
  - rewrite selected_ALL. repeat case_decide; try done.
    exfalso. eauto.
  - repeat case_decide; try done; exfalso; by eapply is_Some_None.
Qed.

(** X14: with [REBUILD_PROJECT] set, the applications are taken in the
    order of the list: one without [repoProjectKey] is skipped, one whose
    key matches the variable ([str.lower] on both sides), or any one when
    the variable is exactly "ALL", gets a runner made for its own project
    key and slug, and the others are passed over.  A failure for one
    application ends the run: the runners created are then the first ones of
    that sequence. *)
Theorem rebuild_selection (w : World) (rebuild_project : string)
    (all_apps : list (gmap string string)) (s1 : Remote) :
  environ w !! "REBUILD_PROJECT" = Some rebuild_project →
  get_all_apps (outside w) = (Ok all_apps, s1) →
  runners (steps (rebuild_pipelines w)) `prefix_of` plan rebuild_project all_apps
  ∧ (is_Done (outcome (rebuild_pipelines w)) →
     runners (steps (rebuild_pipelines w)) = plan rebuild_project all_apps)
  ∧ (rebuild_project = "ALL" →
     plan rebuild_project all_apps
     = app_project
         <$> filter (λ app, is_Some (app !! "repoProjectKey")) all_apps).
Proof.
  intros Hvar Hall.
  assert (∃ w1, steps (rebuild_pipelines w)
                = GetAllApps :: steps (rebuild_apps rebuild_project all_apps w1)
                ∧ outcome (rebuild_pipelines w)
                  = outcome (rebuild_apps rebuild_project all_apps w1))
    as (w1 & -> & ->).
  { exists {| environ := environ w; outside := s1 |}.
    unfold rebuild_pipelines.
    rewrite steps_rbind, outcome_rbind. unfold module_call at 1 2 3 4 5.
    rewrite Hall. cbn [of_result outcome world steps fst snd List.app].
    rewrite steps_rbind, outcome_rbind. unfold getenv.
    cbn [outcome world steps fst snd List.app environ]. by rewrite Hvar. }
  change (runners (GetAllApps :: ?t)) with (runners t).
  destruct (rebuild_apps_runners rebuild_project all_apps w1) as [H1 H2].
  split_and!; [done..|]. intros ->. apply plan_ALL.
Qed.

(** ** The base image of a pipeline built through the runner *)

Definition looks_up (name : string) (ev : Event) : Prop :=
  match ev with AmiLookup n _ => n = name | _ => True end.

Lemma render_wrapper_looks_up self region s :
  Forall (looks_up (effective_base self)) (trace (render_wrapper self region s)).
Proof.
  rewrite render_wrapper_run. case_match; [constructor|].
  destruct (ami_lookup _ _) as [ami_id|e]; unfold trace; cbn [snd];
    by repeat constructor.
Qed.

Lemma region_events_looks_up name subnets region previous_env envs_of_region :
  Forall (looks_up name)
    (region_events subnets region previous_env envs_of_region).
Proof.
  revert previous_env.
  induction envs_of_region as [|env rest IH]; intros previous_env;
    [constructor|].
  cbn [region_events]. case_match; by constructor.
Qed.

Lemma Forall_prefix {A} (P : A → Prop) (l1 l2 : list A) :
  l1 `prefix_of` l2 → Forall P l2 → Forall P l1.
Proof. intros [k ->] H. by apply Forall_app in H as [? _]. Qed.

Lemma render_regions_looks_up self subnets items pipelines s :
  Forall (looks_up (effective_base self))
    (trace (render_regions self subnets items pipelines s)).
Proof.
  revert pipelines.
  induction items as [|[region envs_of_region] rest IH]; intros pipelines.
  { constructor. }
  cbn [render_regions]. unfold bind at 1.
  pose proof (render_wrapper_looks_up self region s) as Hw.
  pose proof (render_wrapper_pure self region s s) as Hpure.
  destruct (render_wrapper self region s) as [[rw sw] tw].
  unfold result, trace in Hw, Hpure. cbn [fst snd] in Hw, Hpure.
  injection Hpure as ->. destruct rw as [wrapper|e]; [|done].
  unfold bind at 1.
  destruct (render_envs_run self subnets region envs_of_region None wrapper s)
    as (t & Hrun & Hpre & _).
  rewrite Hrun.
  eapply Forall_prefix in Hpre; [|apply region_events_looks_up].
  destruct (mapM _ _) as [blocks|e]; cbn [mbind Result_bind].
  - specialize (IH (Dict.set region (extend wrapper (concat blocks)) pipelines)).
    destruct (render_regions _ _ rest _ s) as [[r s'] t'].
    unfold trace in *. cbn [snd] in *. rewrite !Forall_app. by split_and!.
  - unfold trace. cbn [snd]. rewrite Forall_app. by split.
Qed.

Lemma create_pipeline_looks_up self s :
  Forall (looks_up (effective_base self)) (trace (create_pipeline self s)).
Proof.
  rewrite create_pipeline_run.
  destruct (clean_pipelines _ _ s) as [[[]|e] s1];
    [|by repeat constructor].
  destruct (resolve_regions_envs _ _ _) as [regions_envs|e];
    [|by repeat constructor].
  destruct get_subnets as [subnets|e]; [|by repeat constructor].
  pose proof (render_regions_looks_up self subnets regions_envs [] s1) as Hr.
  destruct (render_regions _ _ _ _ s1) as [[[pipelines|e] s2] t].
  2:{ unfold trace in *. cbn [snd] in *. rewrite Forall_app.
      split; [by repeat constructor|done]. }
  pose proof (post_pipelines_publishing self pipelines s2) as Hp.
  assert (Forall (looks_up (effective_base self))
            (trace (post_pipelines self pipelines s2))) as Hp'.
  { eapply Forall_impl; [exact Hp|]. by intros []. }
  destruct (post_pipelines _ _ s2) as [[[[]|e] s3] t'];
    unfold trace in *; cbn [snd] in *; rewrite !Forall_app;
    by split_and!; [repeat constructor|..].
Qed.

(** The base named in what [get_properties] returned. *)
Definition base_read (read : Result Settings) : option string :=
  match read with
  | Ok settings => Some (base (pipeline settings))
  | Raise _ => None
  end.

(** A trace in which the properties are read from
    [./raw.properties.json] only, and every AMI is looked up for the base
    named in the settings that the last [get_properties] before the look-up
    returned; [current] is that base at the start of the trace. *)
Fixpoint based_on (current : option string) (t : list Step) : Prop :=
  match t with
  | [] => True
  | GetProperties path read :: rest =>
      path = "./raw.properties.json" ∧ based_on (base_read read) rest
  | PipelineEvent (AmiLookup name _) :: rest =>
      current = Some name ∧ based_on current rest
  | _ :: rest => based_on current rest
  end.

(** The base that was read last in a trace. *)
Fixpoint last_read (current : option string) (t : list Step) : option string :=
  match t with
  | [] => current
  | GetProperties _ read :: rest => last_read (base_read read) rest
  | _ :: rest => last_read current rest
  end.

(** A step that neither reads the properties nor belongs to a pipeline. *)
Definition quiet (st : Step) : Prop :=
  match st with
  | GetProperties _ _ | PipelineEvent _ => False
  | _ => True
  end.

Lemma based_on_app current t1 t2 :
  based_on current (t1 ++ t2)
  ↔ based_on current t1 ∧ based_on (last_read current t1) t2.
Proof.
  revert current. induction t1 as [|st t1 IH]; intros current.
  { cbn. tauto. }
  destruct st as [| | | | | |path read|ev| | | | | | | | | | |];
    cbn [List.app based_on last_read]; rewrite ?IH; try tauto.
  destruct ev; rewrite ?IH; tauto.
Qed.

Lemma based_on_quiet current t :
  Forall quiet t → based_on current t ∧ last_read current t = current.
Proof.
  induction 1 as [|st t Hst _ IH]; [done|].
  by destruct st.
Qed.

Lemma based_on_pipeline_events name (t : list Event) :
  Forall (looks_up name) t → based_on (Some name) (PipelineEvent <$> t).
Proof.
  induction 1 as [|ev t Hev _ IH]; [done|].
  rewrite fmap_cons. destruct ev; cbn [based_on]; try done.
  cbn [looks_up] in Hev. by subst.
Qed.

(** A run whose trace is based whatever was read before it. *)
Definition settled {A} (o : Outcome A * World * list Step) : Prop :=
  ∀ current, based_on current (steps o).

Lemma settled_rbind {A B} (m : R A) (k : A → R B) w :
  settled (m w) →
  (∀ a w1 t1, m w = (Done a, w1, t1) → settled (k a w1)) →
  settled (rbind m k w).
Proof.
  intros Hm Hk current. rewrite rbind_run.
  specialize (Hm current).
  destruct (m w) as [[[a|e] w1] t1] eqn:Hrun; [|done].
  unfold steps in *. cbn [snd] in *. apply based_on_app. split; [done|].
  by eapply Hk.
Qed.

Lemma settled_quiet {A} (m : R A) w :
  Forall quiet (steps (m w)) → settled (m w).
Proof. intros H current. by apply based_on_quiet. Qed.

(** The constructor and the run of the pipeline object, lines 68-85 of the
    runner. *)
Lemma runner_create_pipeline_settled self onetime w :
  json_path self = "./raw.properties.json" →
  settled (runner_create_pipeline self onetime w).
Proof.
  intros Hjson. unfold runner_create_pipeline.
  apply settled_rbind; [apply settled_quiet; steps_of_runner|].
  intros _ w1 t1 _.
  destruct (negb (truthy onetime)); [|apply settled_quiet; steps_of_runner].
  rewrite Hjson. intros current. rewrite rbind_run.
  destruct (SpinnakerPipeline_init _ _ _ _ w1) as [[[sp|e] w2] t2] eqn:Hinit.
  - apply SpinnakerPipeline_init_Done in Hinit
      as (generated & s1 & settings & s2 & _ & _ & -> & -> & ->).
    unfold steps at 1. cbn [snd List.app based_on base_read].
    split; [done|]. rewrite rbind_run. unfold pipeline_run.
    cbn [outside default].
    pose proof (create_pipeline_looks_up
                  {| self_base := EmptyString;
                     trigger_job := runner_trigger_job self;
                     generated := generated;
                     app_name := app_name_of generated;
                     settings := settings |} s2) as Hbase.
    destruct (create_pipeline _ s2) as [[r s3] t].
    unfold trace in Hbase. cbn [snd] in Hbase.
    apply based_on_pipeline_events in Hbase.
    destruct r; unfold steps; cbn [snd of_result]; [|done].
    by rewrite app_nil_r.
  - unfold steps. cbn [snd].
    unfold SpinnakerPipeline_init, rbind, module_call, recorded_call, rret
      in Hinit.
    destruct (get_details _ _) as [[generated|e1] s1].
    + cbn [of_result outside] in Hinit.
      destruct (get_properties _ _) as [[settings|e2] s2]; [done|].
      by injection Hinit as _ _ <-.
    + by injection Hinit as _ _ <-.
Qed.

Lemma runner_json_path w runner w1 t1 :
  ForemastRunner_init w = (Done runner, w1, t1) →
  json_path runner = "./raw.properties.json".
Proof. by intros (names & _ & -> & _)%ForemastRunner_init_Done. Qed.

Lemma write_configs_json_path self w runner w1 t1 :
  write_configs self w = (Done runner, w1, t1) →
  json_path runner = json_path self.
Proof. by intros (c & -> & _)%write_configs_Done. Qed.

Lemma rebuild_app_settled rebuild_project app w :
  settled (rebuild_app rebuild_project app w).
Proof.
  unfold rebuild_app.
  destruct (app !! "repoProjectKey") as [key|];
    [|apply settled_quiet; steps_of_runner].
  destruct (selected rebuild_project key);
    [|apply settled_quiet; steps_of_runner].
  apply settled_rbind; [apply settled_quiet; steps_of_runner|].
  intros _ w1 t1 _.
  apply settled_rbind; [apply settled_quiet; steps_of_runner|].
  intros slug w2 t2 _.
  apply settled_rbind; [apply settled_quiet; steps_of_runner|].
  intros _ w3 t3 _.
  apply settled_rbind; [apply settled_quiet; steps_of_runner|].
  intros _ w4 t4 _.
  apply settled_rbind; [apply settled_quiet; steps_of_runner|].
  intros r0 w5 t5 Hr0.
  apply settled_rbind; [apply settled_quiet; steps_of_runner|].
  intros r1 w6 t6 Hr1.
  apply settled_rbind; [|intros; apply settled_quiet; steps_of_runner].
  apply runner_create_pipeline_settled.
  by rewrite (write_configs_json_path _ _ _ _ _ Hr1),
    (runner_json_path _ _ _ _ Hr0).
Qed.

Lemma prepare_app_pipeline_settled w : settled (prepare_app_pipeline w).
Proof.
  unfold prepare_app_pipeline.
  apply settled_rbind; [apply settled_quiet; steps_of_runner|].
  intros r0 w1 t1 H0.
  apply settled_rbind; [apply settled_quiet; steps_of_runner|].
  intros _ w2 t2 _.
  apply settled_rbind; [apply settled_quiet; steps_of_runner|].
  intros r1 w3 t3 H1.
  apply settled_rbind; [|intros; apply settled_quiet; steps_of_runner].
  apply runner_create_pipeline_settled.
  by rewrite (write_configs_json_path _ _ _ _ _ H1),
    (runner_json_path _ _ _ _ H0).
Qed.

Lemma prepare_onetime_pipeline_settled w :
  settled (prepare_onetime_pipeline w).
Proof.
  unfold prepare_onetime_pipeline.
  apply settled_rbind; [apply settled_quiet; steps_of_runner|].
  intros r0 w1 t1 H0.
  apply settled_rbind; [apply settled_quiet; steps_of_runner|].
  intros r1 w2 t2 H1.
  apply settled_rbind; [apply settled_quiet; steps_of_runner|].
  intros o w3 t3 _.
  apply settled_rbind; [|intros; apply settled_quiet; steps_of_runner].
  apply runner_create_pipeline_settled.
  by rewrite (write_configs_json_path _ _ _ _ _ H1),
    (runner_json_path _ _ _ _ H0).
Qed.

Lemma rebuild_pipelines_settled w : settled (rebuild_pipelines w).
Proof.
  unfold rebuild_pipelines.
  apply settled_rbind; [apply settled_quiet; steps_of_runner|].
  intros all_apps w1 t1 _.
  apply settled_rbind; [apply settled_quiet; steps_of_runner|].
  intros o w2 t2 _.
  destruct o as [rebuild_project|]; [|apply settled_quiet; steps_of_runner].
  clear. revert w2.
  induction all_apps as [|app rest IH]; intros w2; [by intros ?|].
  cbn [rebuild_apps].
  apply settled_rbind; [apply rebuild_app_settled|]. intros _ w3 t3 _.
  apply IH.
Qed.

(** X15: a pipeline built through the runner never overrides the base
    image: [runner.create_pipeline] passes no base, so in
    [prepare_app_pipeline], [prepare_onetime_pipeline] and
    [rebuild_pipelines] the properties are read from
    [./raw.properties.json] only, and every AMI is looked up for the base
    named in the settings that the last [get_properties] before it returned,
    which is the read of the pipeline object that makes the look-up: in
    [rebuild_pipelines] each application has its own.  No AMI is looked up
    before a read has returned. *)
Theorem runner_pipeline_base (w : World) :
  based_on None (steps (prepare_app_pipeline w))
  ∧ based_on None (steps (prepare_onetime_pipeline w))
  ∧ based_on None (steps (rebuild_pipelines w)).
Proof.
  split_and!.
  - apply prepare_app_pipeline_settled.
  - apply prepare_onetime_pipeline_settled.
  - apply rebuild_pipelines_settled.
Qed.

(** ** [prepare_infrastructure] without [ENV] *)

(** The steps of a run of [prepare_infrastructure] whose runner has no
    environment. *)
Definition with_unset_env (st : Step) : Prop :=
  match st with
  | CreateIam env _ | InitProperties env _
  | CreateSecurityGroup _ env _ _ => env = None
  | CreateElb _ _ _ _ | CreateElbDns _ _ _ _ _ | PostMessage _ _ _
  | Remove _ => False
  | _ => True
  end.

(** X16: [prepare_infrastructure] does not look at [ENV] before it uses it.
    When [ENV] is unset the IAM, S3 and security group modules are called
    with [env=None], and only then does [runner.configs[runner.env]] raise
    [KeyError]: the run never returns, never reaches the ELB, the DNS or the
    Slack notification, and leaves [./raw.properties] behind. *)
Theorem unset_env_fails_late (w : World) :
  environ w !! "ENV" = None →
  Forall with_unset_env (steps (prepare_infrastructure w))
  ∧ ¬ is_Done (outcome (prepare_infrastructure w))
  ∧ (∀ names ac s1 c s2 s3 s4 s5,
       gogoutils (project_of (environ w)) = Ok names →
       process_git_configs (names_gitlab names) (outside w) = (Ok ac, s1) →
       write_variables ac "./raw.properties" (names_gitlab names) s1
       = (Ok c, s2) →
       create_iam_resources None (names_app names) s2 = (Ok tt, s3) →
       init_properties None (names_app names) s3 = (Ok tt, s4) →
       create_security_group (names_app names) None (environ w !! "REGION")
         "./raw.properties.json" s4 = (Ok tt, s5) →
       prepare_infrastructure w
       = (Failed (Exception (KeyError "None")),
          {| environ := environ w; outside := s5 |},
          [Gogoutils (project_of (environ w));
           Banner "Generating Configs";
           ProcessGitConfigs (names_gitlab names);
           WriteVariables "./raw.properties" (names_gitlab names);
           Banner "Creating IAM";
           CreateIam None (names_app names);
           Banner "Creating S3";
           InitProperties None (names_app names);
           Banner "Creating Security Group";
           CreateSecurityGroup (names_app names) None
             (environ w !! "REGION") "./raw.properties.json"])).
Proof.
  intros Henv. split_and!.
  - unfold prepare_infrastructure.
    apply Forall_rbind; [steps_of_runner|]. intros r0 w1 t1 H0.
    apply ForemastRunner_init_Done in H0 as (names & _ & -> & -> & _).
    apply Forall_rbind; [steps_of_runner|]. intros r1 w2 t2 H1.
    apply write_configs_Done in H1 as (c & -> & _ & _).
    rewrite Henv.
    apply Forall_rbind; [steps_of_runner|]. intros _ w3 t3 _.
    apply Forall_rbind; [steps_of_runner|]. intros _ w4 t4 _.
    apply Forall_rbind; [steps_of_runner|]. intros _ w5 t5 _.
    apply Forall_rbind; [steps_of_runner|]. intros cfg w6 t6 Hcfg.
    by unfold rlift, config_of_env in Hcfg.
  - intros Hdone.
    destruct (prepare_infrastructure w) as [[[[]|e] w'] t] eqn:H; [|done].
    unfold prepare_infrastructure in H.
    apply rbind_Done in H as (r0 & w1 & t1 & t1' & Hinit & H & _).
    apply ForemastRunner_init_Done in Hinit as (names & _ & -> & -> & _).
    apply rbind_Done in H as (runner & w2 & t2 & t2' & Hwrite & H & _).
    apply write_configs_Done in Hwrite as (c & -> & _ & _).
    apply rbind_Done in H as ([] & w3 & t3 & t3' & _ & H & _).
    apply rbind_Done in H as ([] & w4 & t4 & t4' & _ & H & _).
    apply rbind_Done in H as ([] & w5 & t5 & t5' & _ & H & _).
    apply rbind_Done in H as (cfg & w6 & t6 & t6' & Hcfg & _ & _).
    unfold rlift, config_of_env in Hcfg.
    cbn [configs with_configs runner_env] in Hcfg. by rewrite Henv in Hcfg.
  - intros names ac s1 c s2 s3 s4 s5 Hnames Hgit Hvars Hiam Hs3 Hsg.
    unfold prepare_infrastructure, ForemastRunner_init.
    unfold rbind, getenv, pure_call, rret. cbn [fst snd].
    fold (project_of (environ w)). rewrite Hnames, Henv.
    cbn [of_result fst snd].
    unfold write_configs, create_iam, create_s3, create_secgroups, rbind,
      module_call, step, rret, rlift, config_of_env.
    cbn [fst snd git_short raw_path outside environ].
    rewrite Hgit. cbn [of_result fst snd outside environ]. rewrite Hvars.
    cbn [of_result fst snd outside environ with_configs runner_env runner_app
           runner_region json_path configs].
    rewrite Hiam. cbn [of_result fst snd outside environ]. rewrite Hs3.
    cbn [of_result fst snd outside environ].
    change ("./raw.properties" +:+ ".json") with "./raw.properties.json".
    rewrite Hsg. reflexivity.
Qed.

End Foremast.

(** * A small application

    Three environments over two regions, as in the specification's example;
    [stage] declares us-east-1 but has no subnets there. *)

Module Demo.

Definition demo_settings (size : Z) : @Settings unit :=
  {| pipeline :=
       {| env := ["dev"; "stage"; "prod"];
          base := "fedora";
          notifications := {| email := "ops@example.com"; slack := "#ops" |};
          image := {| root_volume_size := size |} |};
     envs :=
       {[ "dev" := {| regions := ["us-east-1"]; conf := tt |};
          "stage" := {| regions := ["us-east-1"; "us-west-2"]; conf := tt |};
          "prod" := {| regions := ["us-west-2"]; conf := tt |} ]} |}.

Definition demo_self (size : Z) : @SpinnakerPipeline unit unit :=
  {| self_base := EmptyString;
     trigger_job := "demo-job";
     generated := tt;
     app_name := "demo";
     settings := demo_settings size |}.

Definition demo_subnets : gmap string (gmap string string) :=
  {[ "dev" := {[ "us-east-1" := "subnet-1" ]};
     "stage" := {[ "us-west-2" := "subnet-2" ]};
     "prod" := {[ "us-west-2" := "subnet-3" ]} ]}.

Definition demo_regions_envs : Dict.t (list string) :=
  [("us-east-1", ["dev"; "stage"]); ("us-west-2", ["stage"; "prod"])].

(** The remote state is the list of the stored pipelines. *)
Definition Server : Type :=
  string → string → list string → LibResult Response * list string.

Definition accepted : Response :=
  {| status_code := 200; text := "{}"; json := Returns "{}" |}.

Definition rejected : Response :=
  {| status_code := 500;
     text := "{'error': 'rejected'}";
     json := Returns "{'error': 'rejected'}" |}.

Definition failed_plain : Response :=
  {| status_code := 502;
     text := "Bad Gateway";
     json := Throws "ValueError" |}.

Definition redirected : Response :=
  {| status_code := 302; text := EmptyString; json := Throws "ValueError" |}.

(** A server that stores every pipeline. *)
Definition accepting : Server :=
  λ url data s, (Returns accepted, s ++ [data]).

(** A server that rejects the pipelines of us-east-1. *)
Definition rejecting_east : Server :=
  λ url data s,
    if is_substring "us-east-1" data then (Returns rejected, s)
    else (Returns accepted, s ++ [data]).

(** A server that rejects the pipelines of us-west-2. *)
Definition rejecting_west : Server :=
  λ url data s,
    if is_substring "us-west-2" data then (Returns rejected, s)
    else (Returns accepted, s ++ [data]).

(** A server that fails with a body that is not JSON. *)
Definition failing_plain : Server :=
  λ url data s, (Returns failed_plain, s).

(** A server that answers with a redirection. *)
Definition redirecting : Server :=
  λ url data s, (Returns redirected, s).

Definition demo (server : Server)
    : @Collaborators string string string unit unit (list string) :=
  {| API_URL := "https://spinnaker.example.com";
     clean_pipelines := λ app settings s, (Ok tt, []);
     requests_post := server;
     json_dumps := λ p, other_keys p +:+ ": " +:+ String.concat ", " (stages p);
     pipeline_name := λ data,
       if is_substring ": " data then Returns data else Throws "ValueError";
     get_subnets := Ok demo_subnets;
     ami_lookup := λ name region, Ok ("ami-" +:+ name +:+ "-" +:+ region);
     get_template := λ template_file data,
       Ok (wd_appname data +:+ " [" +:+ wd_region data +:+ "]");
     json_loads_pipeline := λ wrapper,
       Returns {| stages := ["bake"]; other_keys := wrapper |};
     construct_pipeline_block :=
       λ env generated previous_env region region_subnets settings
         pipeline_data,
         Ok ("deploy " +:+ env +:+ " after " +:+ default "nothing" previous_env);
     json_loads_stages := λ block, Returns [block];
     renumerate_stages := λ p, Ok p |}.

Definition east : @Pipeline string string :=
  {| stages := ["bake"; "deploy dev after nothing"];
     other_keys := "demo [us-east-1]" |}.

Definition north : @Pipeline string string :=
  {| stages := ["bake"]; other_keys := "demo [eu-north-1]" |}.

Definition west : @Pipeline string string :=
  {| stages := ["bake"; "deploy stage after nothing"; "deploy prod after stage"];
     other_keys := "demo [us-west-2]" |}.

Example demo_resolve :
  resolve_regions_envs (demo_self 8) (environments (demo_self 8)) []
  = Ok demo_regions_envs.
Proof. vm_compute. reflexivity. Qed.

Example demo_render :
  result (render_regions (collaborators := demo accepting) (demo_self 8)
            demo_subnets demo_regions_envs [] [])
  = Ok [("us-east-1", east); ("us-west-2", west)].
Proof. vm_compute. reflexivity. Qed.

Lemma assembled_stage_sequence_witness :
  resolve_regions_envs (demo_self 8) (environments (demo_self 8)) []
  = Ok demo_regions_envs
  ∧ result (render_regions (collaborators := demo accepting) (demo_self 8)
              demo_subnets demo_regions_envs [] [])
    = mapM (assemble_item (collaborators := demo accepting) (demo_self 8)
              demo_subnets [])
        demo_regions_envs.
Proof.
  split; [vm_compute; reflexivity|].
  apply (assembled_stage_sequence (collaborators := demo accepting)
           (demo_self 8) demo_subnets demo_regions_envs []).
  vm_compute; reflexivity.
Defined.

Lemma stage_count_conservation_witness :
  ∃ (wrapper : @Pipeline string string) (blocks : list (list string)) p,
    Dict.get "us-west-2" [("us-east-1", east); ("us-west-2", west)] = Some p
    ∧ length blocks = 2%nat
    ∧ length (stages p)
      = (length (stages wrapper) + sum_list (length <$> blocks))%nat.
Proof.
  destruct (stage_count_conservation (collaborators := demo accepting)
              (demo_self 8) demo_subnets demo_regions_envs []
              [("us-east-1", east); ("us-west-2", west)] "us-west-2"
              ["stage"; "prod"])
    as (wrapper & blocks & p & _ & _ & Hp & Hb & Hlen & _).
  - vm_compute; reflexivity.
  - vm_compute; reflexivity.
  - vm_compute; reflexivity.
  - exists wrapper, blocks, p. split; [exact Hp|]. split; [exact Hb|exact Hlen].
Defined.

Lemma matrix_resolution_witness :
  ∃ regions_envs,
    resolve_regions_envs (demo_self 8) ["dev"; "stage"; "prod"] []
    = Ok regions_envs
    ∧ regions_envs = [("us-east-1", ["dev"; "stage"]);
                      ("us-west-2", ["stage"; "prod"])].
Proof.
  destruct (matrix_resolution (demo_self 8) ["dev"; "stage"; "prod"])
    as (regions_envs & Hres & _ & _ & _ & Hexample).
  - intros env Hin.
    apply elem_of_cons in Hin as [->|Hin]; [vm_compute; eauto|].
    apply elem_of_cons in Hin as [->|Hin]; [vm_compute; eauto|].
    apply elem_of_cons in Hin as [->|Hin]; [vm_compute; eauto|].
    by apply elem_of_nil in Hin.
  - exists regions_envs. split; [exact Hres|].
    apply Hexample; vm_compute; reflexivity.
Defined.

Lemma chained_to_preceding_available_witness :
  construct_calls
    (trace (render_envs (collaborators := demo accepting) (demo_self 8)
              demo_subnets "us-west-2" ["stage"; "prod"] None
              {| stages := ["bake"]; other_keys := "demo [us-west-2]" |} []))
  = [("stage", None, "us-west-2"); ("prod", Some "stage", "us-west-2")].
Proof.
  destruct (chained_to_preceding_available (collaborators := demo accepting)
              (demo_self 8) demo_subnets "us-west-2" ["stage"; "prod"]
              {| stages := ["bake"]; other_keys := "demo [us-west-2]" |} [])
    as (_ & Hok & _).
  rewrite Hok; [vm_compute; reflexivity|]. vm_compute. exact I.
Defined.

(** The body sent for a pipeline. *)
Definition body (p : @Pipeline string string) : string :=
  json_dumps (Collaborators := demo accepting) p.

Definition url : string := "https://spinnaker.example.com/pipelines".

Lemma accepting_best_effort :
  best_effort_replacement (collaborators := demo accepting) (λ s, s)
    (demo_self 8).
Proof.
  split.
  - intros s s' H. injection H as <-. apply sublist_nil_l.
  - intros u data s r s' H. injection H as <- <-. reflexivity.
Defined.

Lemma clean_before_create_witness :
  ∃ s1 t1 s2 t2,
    create_pipeline (collaborators := demo accepting) (demo_self 8) ["stale"]
    = (Ok true, s1, t1)
    ∧ create_pipeline (collaborators := demo accepting) (demo_self 8) s1
      = (Ok true, s2, t2)
    ∧ s2 = posts t2
    ∧ s2 = [body east; body west].
Proof.
  eexists _, _, _, _. split; [vm_compute; reflexivity|].
  split; [vm_compute; reflexivity|].
  destruct (proj2 (proj2 (proj2
              (clean_before_create (collaborators := demo accepting)
                 (demo_self 8) ["stale"])))
              (λ s, s) _ _ _ _ accepting_best_effort
              eq_refl eq_refl)
    as (regions_envs & subnets & pipelines & s_clean
        & _ & _ & _ & _ & _ & Hclean & _ & H & _).
  injection Hclean as <-. split; [exact H|]. vm_compute; reflexivity.
Defined.

(** A replacement controller whose deletion of the pipelines of us-east-1
    fails: it deletes the others and returns. *)
Definition leaving_east
    : @Collaborators string string string unit unit (list string) :=
  {| API_URL := API_URL (Collaborators := demo accepting);
     clean_pipelines := λ app settings s,
       (Ok tt, filter (λ data, Is_true (is_substring "us-east-1" data)) s);
     requests_post := requests_post (Collaborators := demo accepting);
     json_dumps := json_dumps (Collaborators := demo accepting);
     pipeline_name := pipeline_name (Collaborators := demo accepting);
     get_subnets := get_subnets (Collaborators := demo accepting);
     ami_lookup := ami_lookup (Collaborators := demo accepting);
     get_template := get_template (Collaborators := demo accepting);
     json_loads_pipeline :=
       json_loads_pipeline (Collaborators := demo accepting);
     construct_pipeline_block :=
       construct_pipeline_block (Collaborators := demo accepting);
     json_loads_stages := json_loads_stages (Collaborators := demo accepting);
     renumerate_stages := renumerate_stages (Collaborators := demo accepting)
  |}.

Lemma leaving_east_best_effort :
  best_effort_replacement (collaborators := leaving_east) (λ s, s)
    (demo_self 8).
Proof.
  split.
  - intros s s' H. injection H as <-. apply sublist_filter.
  - intros u data s r s' H. injection H as <- <-. reflexivity.
Qed.

(** C5 does not hold as stated: the clean step is invoked first in both
    runs, and on a best-effort controller that could not delete the
    pipeline of us-east-1 the second run leaves two generated pipelines for
    that region. *)
Lemma orphan_survives_clean :
  best_effort_replacement (collaborators := leaving_east) (λ s, s)
    (demo_self 8)
  ∧ create_pipeline (collaborators := leaving_east) (demo_self 8) []
    = (Ok true, [body east; body west],
       trace (create_pipeline (collaborators := leaving_east) (demo_self 8)
                []))
  ∧ head (trace (create_pipeline (collaborators := leaving_east)
                   (demo_self 8) [body east; body west]))
    = Some (CleanPipelines "demo")
  ∧ clean_pipelines (Collaborators := leaving_east) "demo" (demo_settings 8)
      [body east; body west]
    = (Ok tt, [body east])
  ∧ result (create_pipeline (collaborators := leaving_east) (demo_self 8)
              [body east; body west])
    = Ok true
  ∧ final (create_pipeline (collaborators := leaving_east) (demo_self 8)
             [body east; body west])
    = [body east; body east; body west].
Proof. split; [apply leaving_east_best_effort|]. vm_compute. done. Qed.

(** C6 does not hold as stated: a 302 response is not a 2xx response, and
    [post_pipeline] returns. *)
Lemma redirect_is_not_a_failure :
  requests_post (Collaborators := demo redirecting) url (body east) []
  = (Returns redirected, [])
  ∧ status_code redirected = 302%Z
  ∧ ((200 <=? status_code redirected)%Z && (status_code redirected <? 300)%Z)
    = false
  ∧ post_pipeline (collaborators := demo redirecting) (demo_self 8) (inr east)
      []
    = (Ok tt, [], [Post url (body east);
                   Info (SuccessfullyCreated (body east))]).
Proof. vm_compute. done. Qed.

Lemma post_pipeline_raises_iff_error_status_witness :
  requests_post (Collaborators := demo rejecting_east) url (body east) []
  = (Returns rejected, [])
  ∧ pipeline_name (Collaborators := demo rejecting_east) (body east)
    = Returns (body east)
  ∧ json rejected = Returns "{'error': 'rejected'}"
  ∧ ((∃ msg, result (post_pipeline (collaborators := demo rejecting_east)
                       (demo_self 8) (inr east) [])
             = Raise (SpinnakerPipelineCreationFailed msg))
     ↔ (400 ≤ status_code rejected < 600)%Z).
Proof.
  split; [vm_compute; reflexivity|].
  split; [vm_compute; reflexivity|].
  split; [vm_compute; reflexivity|].
  apply (post_pipeline_raises_iff_error_status
           (collaborators := demo rejecting_east) (demo_self 8) (inr east)
           [] [] rejected).
  - vm_compute; reflexivity.
  - exists (body east). vm_compute; reflexivity.
  - exists "{'error': 'rejected'}". vm_compute; reflexivity.
Defined.

(** C7 does not hold as stated: the error raised for the rejected pipeline
    of us-east-1 does not carry the region. Besides, when the body of the
    error response is not JSON, the error raised is the one of
    [Response.json()], which carries nothing of the run. *)
Lemma failure_does_not_carry_region :
  result (post_pipelines (collaborators := demo rejecting_east) (demo_self 8)
            [("us-east-1", east)] [])
  = Raise (SpinnakerPipelineCreationFailed
             (failure_message "demo" "{'error': 'rejected'}"))
  ∧ ok rejected = false
  ∧ carries (SpinnakerPipelineCreationFailed
               (failure_message "demo" "{'error': 'rejected'}")) "us-east-1"
    = false
  ∧ result (post_pipelines (collaborators := demo failing_plain) (demo_self 8)
              [("us-east-1", east)] [])
    = Raise (ExternalError "ValueError")
  ∧ ok failed_plain = false
  ∧ carries (ExternalError "ValueError") "demo" = false.
Proof. vm_compute. done. Qed.

Lemma creation_failure_message_witness :
  result (post_pipeline (collaborators := demo rejecting_east) (demo_self 8)
            (inr east) [])
  = Raise (SpinnakerPipelineCreationFailed
             (failure_message "demo" "{'error': 'rejected'}"))
  ∧ carries (SpinnakerPipelineCreationFailed
               (failure_message "demo" "{'error': 'rejected'}")) "demo"
    = true
  ∧ carries (SpinnakerPipelineCreationFailed
               (failure_message "demo" "{'error': 'rejected'}"))
      "{'error': 'rejected'}"
    = true.
Proof.
  apply (creation_failure_message (collaborators := demo rejecting_east)
           (demo_self 8) (inr east) [] [] rejected "{'error': 'rejected'}");
    vm_compute; reflexivity.
Defined.

(** The settings of the application when dev also declares us-west-2,
    for which it has no subnets. *)
Definition wide_self : @SpinnakerPipeline unit unit :=
  {| self_base := EmptyString;
     trigger_job := "demo-job";
     generated := tt;
     app_name := "demo";
     settings :=
       {| pipeline := pipeline (demo_settings 8);
          envs :=
            <["dev" := {| regions := ["us-east-1"; "us-west-2"];
                          conf := tt |}]> (envs (demo_settings 8)) |} |}.

Lemma unavailable_env_skipped_witness :
  subnets_lookup demo_subnets "dev" "us-west-2" = None
  ∧ resolve_regions_envs wide_self (environments wide_self) []
    = Ok [("us-east-1", ["dev"; "stage"]);
          ("us-west-2", ["dev"; "stage"; "prod"])]
  ∧ posts (trace (create_pipeline (collaborators := demo accepting) wide_self
                    []))
    = [body east; body west]
  ∧ Info (NotAvailable "dev" "us-west-2")
    ∈ trace (create_pipeline (collaborators := demo accepting) wide_self [])
  ∧ ∃ p', length (stages p') = 3%nat
          ∧ json_dumps (Collaborators := demo accepting) p'
            ∈ posts (trace (create_pipeline (collaborators := demo accepting)
                              wide_self [])).
Proof.
  split; [vm_compute; reflexivity|].
  split; [vm_compute; reflexivity|].
  split; [vm_compute; reflexivity|].
  destruct (proj2 (proj2 (proj2
              (unavailable_env_skipped (collaborators := demo accepting)
                 wide_self demo_subnets "us-west-2" "dev" [] eq_refl)))
              (final (create_pipeline (collaborators := demo accepting)
                        wide_self []))
              (trace (create_pipeline (collaborators := demo accepting)
                        wide_self []))
              [("us-east-1", ["dev"; "stage"]);
               ("us-west-2", ["dev"; "stage"; "prod"])]
              ["dev"; "stage"; "prod"])
    as (Hinfo & wrapper & blocks & p' & Hw & Hblocks & _ & Hren & Hpost).
  - reflexivity.
  - vm_compute; reflexivity.
  - vm_compute; reflexivity.
  - vm_compute; reflexivity.
  - apply list_elem_of_here.
  - split; [exact Hinfo|]. exists p'. split; [|exact Hpost].
    injection Hw as <-. injection Hren as <-.
    apply Forall2_cons_inv_l in Hblocks as (b1 & bs & Hb1 & Hblocks & ->).
    apply Forall2_cons_inv_l in Hblocks as (b2 & bs' & Hb2 & Hblocks & ->).
    apply Forall2_nil_inv_l in Hblocks as ->.
    injection Hb1 as <-. injection Hb2 as <-. reflexivity.
Defined.

(** C9 does not hold as stated: the server rejects the pipeline of
    us-east-1 and would store the one of us-west-2, which is never sent. *)
Lemma rejected_region_blocks_the_next :
  result (create_pipeline (collaborators := demo rejecting_east) (demo_self 8)
            [])
  = Raise (SpinnakerPipelineCreationFailed
             (failure_message "demo" "{'error': 'rejected'}"))
  ∧ posts (trace (create_pipeline (collaborators := demo rejecting_east)
                    (demo_self 8) []))
    = [body east]
  ∧ final (create_pipeline (collaborators := demo rejecting_east)
             (demo_self 8) [])
    = []
  ∧ post_pipeline (collaborators := demo rejecting_east) (demo_self 8)
      (inr west) []
    = (Ok tt, [body west],
       [Post url (body west); Info (SuccessfullyCreated (body west))]).
Proof. vm_compute. done. Qed.

Lemma publish_failure_aborts_witness :
  post_pipelines (collaborators := demo rejecting_west) (demo_self 8)
    ([("us-east-1", east)] ++ ("us-west-2", west) :: [("eu-north-1", north)])
    []
  = (Raise (SpinnakerPipelineCreationFailed
              (failure_message "demo" "{'error': 'rejected'}")),
     [body east],
     [Post url (body east); Info (SuccessfullyCreated (body east))]
     ++ [Post url (body west)]).
Proof.
  apply (publish_failure_aborts (collaborators := demo rejecting_west)
           (demo_self 8) [("us-east-1", east)] [("eu-north-1", north)]
           "us-west-2" west [] [body east] [body east]);
    vm_compute; reflexivity.
Defined.

Lemma root_volume_size_over_50_witness :
  (50 < root_volume_size (image (pipeline (settings (demo_self 80)))))%Z
  ∧ result (create_pipeline (collaborators := demo accepting) (demo_self 80)
              [])
    = Raise (SpinnakerPipelineCreationFailed (root_volume_size_message 80))
  ∧ posts (trace (create_pipeline (collaborators := demo accepting)
                    (demo_self 80) []))
    = [].
Proof.
  assert (50 < root_volume_size (image (pipeline (settings (demo_self 80)))))%Z
    as H by (vm_compute; reflexivity).
  split; [exact H|].
  destruct (root_volume_size_over_50 (collaborators := demo accepting)
              (demo_self 80) H) as (_ & _ & Hposts & Hraise).
  split.
  - apply (Hraise [] [] demo_regions_envs demo_subnets);
      [vm_compute; reflexivity..|discriminate|vm_compute; reflexivity].
  - apply (Hposts []).
Defined.

End Demo.

(** * The runner on a concrete application *)

Module DemoRunner.

(** A pipeline object whose environment list names an environment, qa,
    that has no settings. *)
Definition unsettled_self : @SpinnakerPipeline unit unit :=
  {| self_base := EmptyString;
     trigger_job := "demo-job";
     generated := tt;
     app_name := "demo";
     settings :=
       {| pipeline :=
            {| env := ["dev"; "qa"; "prod"];
               base := "fedora";
               notifications :=
                 {| email := "ops@example.com"; slack := "#ops" |};
               image := {| root_volume_size := 8 |} |};
          envs := envs (Demo.demo_settings 8) |} |}.

(** A pipeline object whose only environment declares no region. *)
Definition idle_self : @SpinnakerPipeline unit unit :=
  {| self_base := EmptyString;
     trigger_job := "demo-job";
     generated := tt;
     app_name := "demo";
     settings :=
       {| pipeline :=
            {| env := ["dev"];
               base := "fedora";
               notifications :=
                 {| email := "ops@example.com"; slack := "#ops" |};
               image := {| root_volume_size := 8 |} |};
          envs := {[ "dev" := {| regions := []; conf := tt |} ]} |} |}.

Lemma missing_environment_settings_witness :
  envs (settings unsettled_self) !! "qa" = None
  ∧ create_pipeline (collaborators := Demo.demo Demo.accepting)
      unsettled_self ["stale"]
    = (Raise (KeyError "qa"), [], [CleanPipelines "demo"]).
Proof.
  split; [vm_compute; reflexivity|].
  apply (missing_environment_settings
           (collaborators := Demo.demo Demo.accepting)
           unsettled_self ["dev"] ["prod"] "qa" ["stale"] []).
  - reflexivity.
  - apply not_elem_of_cons. split; [done|].
    apply not_elem_of_cons. split; [done|]. apply not_elem_of_nil.
  - intros e He. apply list_elem_of_singleton in He as ->.
    vm_compute. eexists. reflexivity.
  - vm_compute. reflexivity.
  - reflexivity.
Defined.

Lemma no_region_no_pipeline_witness :
  create_pipeline (collaborators := Demo.demo Demo.accepting) idle_self
    ["stale"]
  = (Ok true, [],
     [CleanPipelines "demo"; Info (EnvironmentsAndRegions []); GetSubnets]).
Proof.
  apply (no_region_no_pipeline (collaborators := Demo.demo Demo.accepting)
           idle_self ["stale"] [] Demo.demo_subnets).
  - intros e He. apply list_elem_of_singleton in He as ->.
    exists {| regions := []; conf := tt |}. split; vm_compute; reflexivity.
  - reflexivity.
  - reflexivity.
Defined.

Lemma one_request_per_region_witness :
  ∃ regions_envs,
    resolve_regions_envs (Demo.demo_self 8) (environments (Demo.demo_self 8)) []
    = Ok regions_envs
    ∧ length (requests
                (trace (create_pipeline
                          (collaborators := Demo.demo Demo.accepting)
                          (Demo.demo_self 8) [])))
      = length regions_envs.
Proof.
  destruct (one_request_per_region
              (collaborators := Demo.demo Demo.accepting) (Demo.demo_self 8) []
              (final (create_pipeline
                        (collaborators := Demo.demo Demo.accepting)
                        (Demo.demo_self 8) []))
              (trace (create_pipeline
                        (collaborators := Demo.demo Demo.accepting)
                        (Demo.demo_self 8) [])))
    as (regions_envs & subnets & pipelines & Hres & _ & _ & _ & Hlen & _).
  - vm_compute. reflexivity.
  - exists regions_envs. split; [exact Hres|exact Hlen].
Defined.

Definition west_data : WrapperData :=
  {| wd_ami_id := "ami-fedora-us-west-2";
     wd_appname := "demo";
     wd_base := "fedora";
     wd_environment := "packaging";
     wd_region := "us-west-2";
     wd_triggerjob := "demo-job";
     wd_email := "ops@example.com";
     wd_slack := "#ops";
     wd_root_volume_size := 8;
     wd_ami_template_file := "aws-ebs-west-2.json" |}.

Lemma wrapper_template_data_witness :
  trace (render_wrapper (collaborators := Demo.demo Demo.accepting)
           (Demo.demo_self 8) "us-west-2" [])
  = [AmiLookup "fedora" "us-west-2";
     GetTemplate "pipeline-templates/pipeline_wrapper.json" west_data]
  ∧ wd_base west_data
    = effective_base (Demo.demo_self 8)
  ∧ (wd_root_volume_size west_data ≤ 50)%Z.
Proof.
  split; [vm_compute; reflexivity|].
  destruct (wrapper_template_data (collaborators := Demo.demo Demo.accepting)
              (Demo.demo_self 8) "us-west-2" []
              "pipeline-templates/pipeline_wrapper.json" west_data)
    as (_ & _ & _ & _ & Hbase & _ & _ & _ & _ & _ & Hsize).
  - vm_compute. apply list_elem_of_further, list_elem_of_here.
  - split; [exact Hbase|exact Hsize].
Defined.

Lemma region_without_available_env_witness :
  render_envs (collaborators := Demo.demo Demo.accepting) (Demo.demo_self 8)
    Demo.demo_subnets "eu-north-1" ["dev"; "stage"] None Demo.north []
  = (Ok Demo.north, [],
     [Info (NotAvailable "dev" "eu-north-1");
      Info (NotAvailable "stage" "eu-north-1")]).
Proof.
  destruct (region_without_available_env
              (collaborators := Demo.demo Demo.accepting) (Demo.demo_self 8)
              Demo.demo_subnets "eu-north-1" ["dev"; "stage"]) as [Henvs _].
  - intros env He.
    apply elem_of_cons in He as [->|He]; [vm_compute; reflexivity|].
    apply list_elem_of_singleton in He as ->. vm_compute. reflexivity.
  - apply Henvs.
Defined.

(** ** The collaborators of the runner *)

Definition lower_ascii (c : Ascii.ascii) : Ascii.ascii :=
  let n := Ascii.nat_of_ascii c in
  if (65 <=? n)%nat && (n <=? 90)%nat then Ascii.ascii_of_nat (n + 32) else c.

Fixpoint lower_string (s : string) : string :=
  match s with
  | EmptyString => EmptyString
  | String c rest => String (lower_ascii c) (lower_string rest)
  end.

Definition demo_names : Names :=
  {| names_app := "demo";
     names_jenkins := "demo-job";
     names_gitlab := "forrest/demo" |}.

Definition demo_configs : gmap string EnvConfig :=
  {[ "dev" := {| eureka_enabled := false; subnet_purpose := "internal" |};
     "prod" := {| eureka_enabled := true; subnet_purpose := "external" |} ]}.

Definition demo_apps : list (gmap string string) :=
  [ {[ "name" := "demo"; "repoProjectKey" := "forrest";
       "repoSlug" := "demo" ]};
    {[ "name" := "orphan" ]};
    {[ "name" := "billing"; "repoProjectKey" := "finance";
       "repoSlug" := "billing" ]};
    {[ "name" := "gump"; "repoProjectKey" := "Forrest";
       "repoSlug" := "gump" ]} ].

(** The remote state is the list of the stored pipelines; the other
    modules leave it alone. *)
Definition demo_runner : @RunnerCollaborators unit unit (list string) unit :=
  {| gogoutils := λ git_project, Ok demo_names;
     process_git_configs := λ git_short s, (Ok tt, s);
     write_variables := λ app_configs out_file git_short s,
       (Ok demo_configs, s);
     create_app := λ app email project repo s, (Ok tt, s);
     get_details := λ app s, (Ok tt, s);
     app_name_of := λ generated, "demo";
     get_properties := λ prop_path s, (Ok (Demo.demo_settings 8), s);
     create_onetime_pipeline := λ onetime app trigger_job prop_path s,
       (Ok tt, s);
     create_iam_resources := λ env app s, (Ok tt, s);
     init_properties := λ env app s, (Ok tt, s);
     create_security_group := λ app env region prop_path s, (Ok tt, s);
     create_elb := λ app env region prop_path s, (Ok tt, s);
     create_elb_dns := λ app env region prop_path elb_subnet s, (Ok tt, s);
     create_policy := λ app env region prop_path s, (Ok tt, s);
     post_message := λ app env prop_path s, (Ok tt, s);
     os_remove := λ path s, (Ok tt, s);
     get_all_apps := λ s, (Ok demo_apps, s);
     lower := lower_string |}.

Definition dev_world : @World (list string) :=
  {| environ := {[ "ENV" := "dev"; "PROJECT" := "forrest";
                   "GIT_REPO" := "demo"; "REGION" := "us-east-1" ]};
     outside := [] |}.

Definition rebuild_world : @World (list string) :=
  {| environ := {[ "REBUILD_PROJECT" := "FORREST" ]}; outside := [] |}.

Lemma prepare_infrastructure_calls_witness :
  ∃ t,
    steps (prepare_infrastructure (runner_collaborators := demo_runner)
             dev_world) = t
    ∧ calls t
      = [Gogoutils "forrest/demo";
         ProcessGitConfigs "forrest/demo";
         WriteVariables "./raw.properties" "forrest/demo";
         CreateIam (Some "dev") "demo";
         InitProperties (Some "dev") "demo";
         CreateSecurityGroup "demo" (Some "dev") (Some "us-east-1")
           "./raw.properties.json";
         CreateElb "demo" (Some "dev") (Some "us-east-1")
           "./raw.properties.json";
         CreateElbDns "demo" (Some "dev") (Some "us-east-1")
           "./raw.properties.json" "internal";
         Remove "./raw.properties"].
Proof.
  eexists. split; [reflexivity|].
  destruct (prepare_infrastructure_calls (runner_collaborators := demo_runner)
              dev_world
              (world (prepare_infrastructure
                        (runner_collaborators := demo_runner) dev_world))
              (steps (prepare_infrastructure
                        (runner_collaborators := demo_runner) dev_world)))
    as (names & env & ac & s1 & c & s2 & cfg & Hnames & Henv & _ & Hc & Hcfg
        & _ & ->).
  - vm_compute. reflexivity.
  - injection Hnames as <-. injection Henv as <-. injection Hc as <- <-.
    injection Hcfg as <-. vm_compute. reflexivity.
Defined.

Lemma rebuild_needs_project_witness :
  rebuild_pipelines (collaborators := Demo.demo Demo.accepting)
    (runner_collaborators := demo_runner) dev_world
  = (Failed (SystemExit "Error: No REBUILD_PROJECT variable found"),
     dev_world,
     [GetAllApps; Log (Fatal "No REBUILD_PROJECT variable found")]).
Proof.
  rewrite (rebuild_needs_project (collaborators := Demo.demo Demo.accepting)
             (runner_collaborators := demo_runner) dev_world).
  - vm_compute. reflexivity.
  - vm_compute. reflexivity.
Defined.

Lemma rebuild_selection_witness :
  runners (steps (rebuild_pipelines
                    (collaborators := Demo.demo Demo.accepting)
                    (runner_collaborators := demo_runner) rebuild_world))
  = ["forrest/demo"; "Forrest/gump"].
Proof.
  destruct (rebuild_selection (collaborators := Demo.demo Demo.accepting)
              (runner_collaborators := demo_runner) rebuild_world "FORREST"
              demo_apps []) as (_ & Hdone & _).
  - vm_compute. reflexivity.
  - reflexivity.
  - rewrite Hdone; [vm_compute; reflexivity|]. vm_compute. exact I.
Defined.

(** A job started without [ENV]. *)
Definition no_env_world : @World (list string) :=
  {| environ := {[ "PROJECT" := "forrest"; "GIT_REPO" := "demo";
                   "REGION" := "us-east-1" ]};
     outside := [] |}.

Lemma unset_env_fails_late_witness :
  environ no_env_world !! "ENV" = None
  ∧ outcome (prepare_infrastructure (runner_collaborators := demo_runner)
               no_env_world)
    = Failed (Exception (KeyError "None")).
Proof.
  split; [vm_compute; reflexivity|].
  destruct (unset_env_fails_late (runner_collaborators := demo_runner)
              no_env_world) as (_ & _ & Hrun).
  - vm_compute. reflexivity.
  - rewrite (Hrun demo_names tt [] demo_configs [] [] [] []);
      reflexivity.
Defined.

End DemoRunner.
